(** * The media storage coordinator of synapse/media/media_storage.py

    A shallow embedding of [MediaStorage], [ReadableFileWrapper],
    [FileResponder] and [_write_file_synchronously], together with the
    properties of the storage specification that are stated about them.

    The coroutines of the source are sequential programs over the local
    file system, the caller's streams and the external collaborators (the
    storage providers and the spam checker).  They are written here in a
    state-and-exception monad whose state also keeps the list of calls that
    left the coordinator, in the order in which they were made. *)

From Stdlib Require Import String Ascii List ZArith Strings.Byte Lia.
From stdpp Require Import base option list gmap strings.

Local Open Scope string_scope.
Local Open Scope list_scope.

(** ** Descriptors (synapse/media/_base.py: only the fields this file reads) *)

Record ThumbnailInfo := {
  width : Z;
  height : Z;
  method : string;
  type : string;
}.

Record FileInfo := {
  server_name : option string;
  file_id : string;
  url_cache : bool;
  thumbnail : option ThumbnailInfo;
}.

(** Python's truth test, as used by [if file_info.server_name] and
    [if file_info.thumbnail]: [None] and the empty string are false, every
    other string and every attrs object is true. *)
Definition truthy_str (o : option string) : bool :=
  match o with
  | Some s => negb (String.eqb s "")
  | None => false
  end.


(** ** Path layout (synapse/media/filepath.py)

    [MediaFilePaths] is not part of the sources at hand: the coordinator is
    verified for every implementation of it. *)

Record MediaFilePaths := {
  local_media_filepath_rel : string -> string;
  local_media_thumbnail_rel : string -> Z -> Z -> string -> string -> string;
  remote_media_filepath_rel : string -> string -> string;
  remote_media_thumbnail_rel :
    string -> string -> Z -> Z -> string -> string -> string;
  remote_media_thumbnail_rel_legacy :
    string -> string -> Z -> Z -> string -> string;
  url_cache_filepath_rel : string -> string;
  url_cache_thumbnail_rel : string -> Z -> Z -> string -> string -> string;
}.

(** ** posixpath.join and posixpath.dirname *)

Definition sep : ascii := "/"%char.

Definition is_sep (c : ascii) : bool := Ascii.eqb c sep.

Definition startswith_sep (s : string) : bool :=
  match s with
  | String c _ => is_sep c
  | EmptyString => false
  end.

Fixpoint endswith_sep (s : string) : bool :=
  match s with
  | EmptyString => false
  | String c EmptyString => is_sep c
  | String _ rest => endswith_sep rest
  end.

Definition os_path_join (a b : string) : string :=
  if startswith_sep b then b
  else if (String.eqb a "" || endswith_sep a)%bool then a ++ b
  else a ++ String sep b.

(** [drop_tail_component] works on the reversed path: it removes the
    characters after the last separator, so what is left is [p[:i]] with
    [i = p.rfind('/') + 1]. *)
Fixpoint drop_tail_component (l : list ascii) : list ascii :=
  match l with
  | [] => []
  | c :: rest => if is_sep c then l else drop_tail_component rest
  end.

Fixpoint strip_seps (l : list ascii) : list ascii :=
  match l with
  | [] => []
  | c :: rest => if is_sep c then strip_seps rest else l
  end.

Definition os_path_dirname (p : string) : string :=
  let head := drop_tail_component (rev (list_ascii_of_string p)) in
  match strip_seps head with
  | [] => string_of_list_ascii (rev head)
  | stripped => string_of_list_ascii (rev stripped)
  end.

(** ** MediaStorage._file_info_to_path *)

Definition _file_info_to_path (filepaths : MediaFilePaths) (file_info : FileInfo)
  : string :=
  if url_cache file_info then
    match thumbnail file_info with
    | Some t =>
        url_cache_thumbnail_rel filepaths (file_id file_info)
          (width t) (height t) (type t) (method t)
    | None => url_cache_filepath_rel filepaths (file_id file_info)
    end
  else if truthy_str (server_name file_info) then
    let name := default "" (server_name file_info) in
    match thumbnail file_info with
    | Some t =>
        remote_media_thumbnail_rel filepaths name (file_id file_info)
          (width t) (height t) (type t) (method t)
    | None => remote_media_filepath_rel filepaths name (file_id file_info)
    end
  else
    match thumbnail file_info with
    | Some t =>
        local_media_thumbnail_rel filepaths (file_id file_info)
          (width t) (height t) (type t) (method t)
    | None => local_media_filepath_rel filepaths (file_id file_info)
    end.

(** The candidate paths of a lookup: the resolved path and, for a thumbnail
    of a descriptor with a server name, the legacy path without the method
    (the first lines of [fetch_media]). *)
Definition legacy_path (filepaths : MediaFilePaths) (file_info : FileInfo)
  : option string :=
  match thumbnail file_info with
  | Some t =>
      if truthy_str (server_name file_info) then
        Some (remote_media_thumbnail_rel_legacy filepaths
                (default "" (server_name file_info)) (file_id file_info)
                (width t) (height t) (type t))
      else None
  | None => None
  end.

(** ** Exceptions

    Every value of [exn] stands for an instance of Python's [Exception]:
    what [except Exception] catches.  [SpamMediaException] is declared as a
    subclass of [NotFoundError]. *)

Inductive OSErrorKind := FileNotFoundError | PermissionError.

Inductive exn :=
| NotFoundError
| SpamMediaException (errcode : string)
| OSError (kind : OSErrorKind) (filename : string)
| ValueError (msg : string)
| ProviderError (msg : string).

Definition isinstance_NotFoundError (e : exn) : bool :=
  match e with
  | NotFoundError | SpamMediaException _ => true
  | _ => false
  end.

Inductive Result (A : Type) :=
| Ok (a : A)
| Raise (e : exn).
Arguments Ok {A} a.
Arguments Raise {A} e.

(** ** The local file system

    Regular files by absolute path.  Directories are not represented:
    [os.makedirs(..., exist_ok=True)] is recorded as a call and changes
    nothing else, and opening a file for writing always succeeds.  The one
    refusal of the operating system that is represented is the one the
    source provides for, in the [try: os.remove(fname) except Exception:
    pass] of [store_into_file]: the system can refuse to unlink a file (the
    containing directory is not writable by the process, the file is held
    open elsewhere, ...), and [undeletable] lists the paths for which it
    does.  Truncating or rewriting such a file is still allowed. *)

Record FS := {
  files : gmap string (list byte);
  undeletable : gset string;
}.

Definition fs_exists (p : string) (d : FS) : bool :=
  bool_decide (is_Some (files d !! p)).

(** [open(p, "wb")]: creates the file, or truncates it when it is there. *)
Definition fs_open_wb (p : string) (d : FS) : FS :=
  {| files := <[p := []]> (files d); undeletable := undeletable d |}.

(** [f.write(data)] on a file opened by [fs_open_wb]. *)
Definition fs_write (p : string) (data : list byte) (d : FS) : FS :=
  {| files := <[p := default [] (files d !! p) ++ data]> (files d);
     undeletable := undeletable d |}.

(** [os.remove(p)]. *)
Definition fs_remove (p : string) (d : FS) : Result FS :=
  match files d !! p with
  | None => Raise (OSError FileNotFoundError p)
  | Some _ =>
      if bool_decide (p ∈ undeletable d) then Raise (OSError PermissionError p)
      else Ok {| files := delete p (files d); undeletable := undeletable d |}
  end.

(** ** Streams

    A readable binary stream ([IO]): its bytes and the read position.  The
    caller's streams live in a store and are named by a handle, so that a
    [seek] or a [read] made by the coordinator is seen by whoever uses the
    same handle later.  A handle that is not in the store is a closed
    file. *)

Record IO := {
  io_data : list byte;
  io_pos : nat;
}.

Definition io_seek (offset : nat) (f : IO) : IO :=
  {| io_data := io_data f; io_pos := offset |}.

(** [f.read(n)]: at most [n] bytes from the position, which advances by
    what was read. *)
Definition io_read (n : nat) (f : IO) : list byte * IO :=
  let chunk := take n (drop (io_pos f) (io_data f)) in
  (chunk, {| io_data := io_data f; io_pos := io_pos f + length chunk |}).

(** [f.read()]: everything from the position to the end. *)
Definition io_read_all (f : IO) : list byte * IO :=
  io_read (length (io_data f)) f.

(** A file object opened for writing ([BinaryIO]); [name] is the path it
    was opened on. *)
Record BinaryIO := { name : string }.

(** ** Responders (synapse/media/_base.py: [Responder] is an interface)

    [FileResponder] is the class of this file; it holds the file object
    that [open(local_path, "rb")] returned, described by the bytes the file
    held when it was opened.  A storage provider answers with a responder
    of its own, of which two things matter to the coordinator: the bytes it
    delivers to the consumer, and whether the transfer ends normally or
    breaks off with an exception after some bytes have been delivered. *)

Inductive Responder :=
| FileResponder (open_file : IO)
| ProviderResponder (payload : list byte)
| InterruptedResponder (delivered : list byte) (err : exn).

(** What [write_to_consumer] delivers to the consumer. *)
Definition responder_bytes (r : Responder) : list byte :=
  match r with
  | FileResponder open_file => fst (io_read_all open_file)
  | ProviderResponder payload => payload
  | InterruptedResponder delivered _ => delivered
  end.

(** The exception that [await res.write_to_consumer(consumer)] or
    [await consumer.wait()] ends with, if any. *)
Definition responder_failure (r : Responder) : option exn :=
  match r with
  | InterruptedResponder _ err => Some err
  | _ => None
  end.

(** A file object opened for reading by [ReadableFileWrapper]: the path it
    was opened on and the read position.  Nothing is read when the file is
    opened and nothing is read ahead: every [read] is served from the file
    as it is when the read is made. *)
Record FileReader := {
  reader_path : string;
  reader_pos : nat;
}.

(** [file.read(n)]: at most [n] bytes from the position, which advances by
    what was read.  The file system identifies a file with its path, so a
    file that has been removed since it was opened reads as ended. *)
Definition reader_read (n : nat) (file : FileReader) (d : FS)
  : list byte * FileReader :=
  let chunk :=
    take n (drop (reader_pos file) (default [] (files d !! reader_path file))) in
  (chunk, {| reader_path := reader_path file;
             reader_pos := reader_pos file + length chunk |}).

(** The spam checker's answer: [NOT_SPAM], or a tuple of an error code and
    additional fields. *)
Inductive SpamVerdict :=
| NOT_SPAM
| Rejected (code : string) (fields : list (string * string)).

Inductive Clock := TheClock.

Record ReadableFileWrapper := {
  rfw_clock : Clock;
  path : string;
}.

Definition CHUNK_SIZE : nat := 2 ^ 14.

(** ** The coordinator's monad *)

Inductive open_mode := rb | wb.

(** The calls that leave the coordinator.  [EvYield] is the point where the
    context manager hands control to the caller's block. *)
Inductive Event :=
| EvMakedirs (dirname : string)
| EvExists (p : string)
| EvOpen (p : string) (mode : open_mode)
| EvClose (p : string)
| EvRemove (p : string)
| EvYield (fname : string)
| EvSpamCheck (p : string) (file_info : FileInfo)
| EvStore (provider : string) (p : string) (file_info : FileInfo)
| EvFetch (provider : string) (p : string) (file_info : FileInfo)
| EvRelease (res : Responder)
| EvCallback (chunk : list byte)
| EvSleep (seconds : Z).

(** The calls that reach a storage provider. *)
Definition is_provider_call (ev : Event) : bool :=
  match ev with
  | EvStore _ _ _ | EvFetch _ _ _ => true
  | _ => false
  end.

Section Coordinator.

(** [Ext] is the state of whatever lies outside the process: the contents of
    the remote stores, the spam checker's memory. *)
Context {Ext : Type}.

Record Env := {
  fs : FS;
  streams : gmap nat IO;
  ext : Ext;
}.

Record State := {
  env : Env;
  trace : list Event;
}.

Definition M (A : Type) : Type := State -> Result A * State.

Definition ret {A : Type} (a : A) : M A := fun s => (Ok a, s).

Definition raise {A : Type} (e : exn) : M A := fun s => (Raise e, s).

Definition bind {A B : Type} (m : M A) (k : A -> M B) : M B :=
  fun s =>
    match m s with
    | (Ok a, s') => k a s'
    | (Raise e, s') => (Raise e, s')
    end.

Definition try_except {A : Type} (body : M A) (handler : exn -> M A) : M A :=
  fun s =>
    match body s with
    | (Ok a, s') => (Ok a, s')
    | (Raise e, s') => handler e s'
    end.

(** [try: body finally: cleanup], as the [with] statement needs it. *)
Definition try_finally {A : Type} (body : M A) (cleanup : M unit) : M A :=
  fun s =>
    match body s with
    | (r, s') =>
        match cleanup s' with
        | (Ok _, s'') => (r, s'')
        | (Raise e, s'') => (Raise e, s'')
        end
    end.

Definition log (e : Event) : M unit :=
  fun s => (Ok tt, {| env := env s; trace := trace s ++ [e] |}).

Definition set_fs (d : FS) (e : Env) : Env :=
  {| fs := d; streams := streams e; ext := ext e |}.

Definition set_stream (h : nat) (f : IO) (e : Env) : Env :=
  {| fs := fs e; streams := <[h := f]> (streams e); ext := ext e |}.

(** Code that is not the coordinator's (the caller's block, a provider, the
    spam checker) changes the environment, never the record of calls. *)
Definition call {A : Type} (c : Env -> Result A * Env) : M A :=
  fun s =>
    match c (env s) with
    | (r, e') => (r, {| env := e'; trace := trace s |})
    end.

Definition modify_fs (f : FS -> FS) : M unit :=
  call (fun e => (Ok tt, set_fs (f (fs e)) e)).

End Coordinator.

Notation "'let*' x := m 'in' k" := (bind m (fun x => k))
  (at level 10, x name, m at level 100, k at level 200).
Notation "m ;; k" := (bind m (fun _ => k))
  (at level 100, k at level 200, right associativity).

Section Operations.

Context {Ext : Type}.

Local Abbreviation Env := (@Env Ext).
Local Abbreviation State := (@State Ext).
Local Abbreviation M := (@M Ext).

(** *** Operating system calls *)

Definition os_makedirs (dirname : string) : M unit := log (EvMakedirs dirname).

Definition os_path_exists (p : string) : M bool :=
  log (EvExists p) ;;
  fun s => (Ok (fs_exists p (fs (env s))), s).

Definition os_remove (p : string) : M unit :=
  log (EvRemove p) ;;
  call (fun e =>
          match fs_remove p (fs e) with
          | Ok d => (Ok tt, set_fs d e)
          | Raise err => (Raise err, e)
          end).

Definition open_wb (p : string) : M BinaryIO :=
  log (EvOpen p wb) ;;
  modify_fs (fs_open_wb p) ;;
  ret {| name := p |}.

(** [open(p, "rb")] where the file object is handed on without being
    read ([fetch_media]): the object is described by the bytes the file
    holds at that moment. *)
Definition open_rb (p : string) : M IO :=
  log (EvOpen p rb) ;;
  fun s =>
    match files (fs (env s)) !! p with
    | Some data => (Ok {| io_data := data; io_pos := 0 |}, s)
    | None => (Raise (OSError FileNotFoundError p), s)
    end.

(** [open(p, "rb")] where the file object is read afterwards
    ([write_chunks_to]). *)
Definition open_reader (p : string) : M FileReader :=
  log (EvOpen p rb) ;;
  fun s =>
    match files (fs (env s)) !! p with
    | Some _ => (Ok {| reader_path := p; reader_pos := 0 |}, s)
    | None => (Raise (OSError FileNotFoundError p), s)
    end.

Definition close (p : string) : M unit := log (EvClose p).

(** [f.write(data)] *)
Definition write (f : BinaryIO) (data : list byte) (e : Env) : Env :=
  set_fs (fs_write (name f) data (fs e)) e.

(** *** Collaborators

    The storage providers and the spam checker are taken at their
    interface: [fetch] answers with a responder or with nothing; [fetch],
    [store_file] and the check can raise, and none of the calls is guarded
    by the coordinator except inside the [try] of [store_into_file].  All
    of them may change the environment in any way. *)

Record StorageProvider := {
  provider_str : string;
  provider_store_file : string -> FileInfo -> Env -> Result unit * Env;
  provider_fetch : string -> FileInfo -> Env -> Result (option Responder) * Env;
}.

Record SpamCheckerModuleApiCallbacks := {
  check_media_file_for_spam :
    ReadableFileWrapper -> FileInfo -> Env -> Result SpamVerdict * Env;
}.

Record MediaStorage := {
  local_media_directory : string;
  filepaths : MediaFilePaths;
  storage_providers : list StorageProvider;
  _spam_checker_module_callbacks : SpamCheckerModuleApiCallbacks;
  clock : Clock;
}.

(** *** Loops

    [for x in xs: await body(x)], and the same loop when the body can leave
    the function with [return r]: [Some r] is that return, [None] is falling
    out of the loop. *)

Fixpoint for_each {X : Type} (xs : list X) (body : X -> M unit) : M unit :=
  match xs with
  | [] => ret tt
  | x :: rest => body x ;; for_each rest body
  end.

Fixpoint for_return {X R : Type} (xs : list X) (body : X -> M (option R))
  : M (option R) :=
  match xs with
  | [] => ret None
  | x :: rest =>
      let* r := body x in
      match r with
      | Some v => ret (Some v)
      | None => for_return rest body
      end
  end.

(** *** Calls to the collaborators, as the coordinator makes them *)

Definition store_file_on (provider : StorageProvider) (p : string)
    (file_info : FileInfo) : M unit :=
  log (EvStore (provider_str provider) p file_info) ;;
  call (provider_store_file provider p file_info).

Definition fetch_on (provider : StorageProvider) (p : string)
    (file_info : FileInfo) : M (option Responder) :=
  log (EvFetch (provider_str provider) p file_info) ;;
  call (provider_fetch provider p file_info).

Definition spam_check_on (callbacks : SpamCheckerModuleApiCallbacks)
    (wrapper : ReadableFileWrapper) (file_info : FileInfo) : M SpamVerdict :=
  log (EvSpamCheck (path wrapper) file_info) ;;
  call (check_media_file_for_spam callbacks wrapper file_info).

(** *** _write_file_synchronously and MediaStorage.write_to_file *)

Definition _write_file_synchronously (source : nat) (dest : BinaryIO)
    (e : Env) : Result unit * Env :=
  match streams e !! source with
  | None => (Raise (ValueError "I/O operation on closed file."), e)
  | Some f =>
      (* source.seek(0) *)
      let f := io_seek 0 f in
      (* shutil.copyfileobj(source, dest) *)
      match io_read_all f with
      | (buf, f) => (Ok tt, write dest buf (set_stream source f e))
      end
  end.

Definition write_to_file (source : nat) (output : BinaryIO)
  : Env -> Result unit * Env :=
  _write_file_synchronously source output.

(** *** MediaStorage.store_into_file

    The two blocks of the [try] are named after the spans that wrap them in
    the source.  [block] is the body of the caller's [async with]: it runs
    where the generator yields [(f, fname)], and an exception it raises is
    raised at that [yield]. *)

Definition writing_to_main_media_repo (fname : string)
    (block : BinaryIO * string -> Env -> Result unit * Env)
  : M (BinaryIO * string) :=
  let* f := open_wb fname in
  try_finally
    (log (EvYield fname) ;; call (block (f, fname)) ;; ret (f, fname))
    (close fname).

Definition writing_to_other_storage_providers (self : MediaStorage)
    (p fname : string) (file_info : FileInfo) : M unit :=
  let* spam_check :=
    spam_check_on (_spam_checker_module_callbacks self)
      {| rfw_clock := clock self; path := fname |} file_info in
  match spam_check with
  | Rejected code _ => raise (SpamMediaException code)
  | NOT_SPAM =>
      for_each (storage_providers self)
        (fun provider => store_file_on provider p file_info)
  end.

(** The [except Exception as e] clause. *)
Definition remove_and_reraise {A : Type} (fname : string) (e : exn) : M A :=
  try_except (os_remove fname) (fun _ => ret tt) ;;
  raise e.

Definition store_into_file (self : MediaStorage) (file_info : FileInfo)
    (block : BinaryIO * string -> Env -> Result unit * Env)
  : M (BinaryIO * string) :=
  let p := _file_info_to_path (filepaths self) file_info in
  let fname := os_path_join (local_media_directory self) p in
  let dirname := os_path_dirname fname in
  os_makedirs dirname ;;
  try_except
    (let* yielded := writing_to_main_media_repo fname block in
     writing_to_other_storage_providers self p fname file_info ;;
     ret yielded)
    (remove_and_reraise fname).

(** *** MediaStorage.store_file *)

Definition store_file (self : MediaStorage) (source : nat)
    (file_info : FileInfo) : M string :=
  let* yielded :=
    store_into_file self file_info
      (fun '(f, fname) => write_to_file source f) in
  ret (snd yielded).

(** *** MediaStorage.fetch_media *)

Definition fetch_media (self : MediaStorage) (file_info : FileInfo)
  : M (option Responder) :=
  let paths :=
    [_file_info_to_path (filepaths self) file_info]
    ++ option_list (legacy_path (filepaths self) file_info) in
  let* local :=
    for_return paths (fun p =>
      let local_path := os_path_join (local_media_directory self) p in
      let* found := os_path_exists local_path in
      if found then
        let* f := open_rb local_path in
        ret (Some (FileResponder f))
      else ret None) in
  match local with
  | Some responder => ret (Some responder)
  | None =>
      for_return (storage_providers self) (fun provider =>
        for_return paths (fun p => fetch_on provider p file_info))
  end.

(** *** MediaStorage.ensure_media_is_in_local_cache

    [with res:] releases the responder on every way out of its block.  In
    the block the file is opened for writing and handed to a
    [BackgroundFileConsumer]; the two [await]s deliver the responder's
    bytes to the file and return once the consumer has written them and
    closed the file, or raise.  Nothing guards them: an exception leaves
    the function with what has been written so far still in the file. *)

(** [res.__exit__(...)]: the responder gives up what it holds (a
    [FileResponder] closes its file object), and the exception, if there is
    one, goes on. *)
Definition responder_exit (res : Responder) : M unit := log (EvRelease res).

Definition stream_to_file (res : Responder) (f : BinaryIO) : M unit :=
  call (fun e =>
          (match responder_failure res with
           | Some err => Raise err
           | None => Ok tt
           end,
           write f (responder_bytes res) e)) ;;
  close (name f).

Definition ensure_media_is_in_local_cache (self : MediaStorage)
    (file_info : FileInfo) : M string :=
  let p := _file_info_to_path (filepaths self) file_info in
  let local_path := os_path_join (local_media_directory self) p in
  let* found := os_path_exists local_path in
  if found then ret local_path
  else
    let* legacy :=
      match legacy_path (filepaths self) file_info with
      | Some legacy_p =>
          let legacy_local_path :=
            os_path_join (local_media_directory self) legacy_p in
          let* found := os_path_exists legacy_local_path in
          ret (if found then Some legacy_local_path else None)
      | None => ret None
      end in
    match legacy with
    | Some legacy_local_path => ret legacy_local_path
    | None =>
        let dirname := os_path_dirname local_path in
        os_makedirs dirname ;;
        let* fetched :=
          for_return (storage_providers self) (fun provider =>
            let* res := fetch_on provider p file_info in
            match res with
            | Some responder =>
                try_finally
                  (let* f := open_wb local_path in
                   stream_to_file responder f)
                  (responder_exit responder) ;;
                ret (Some local_path)
            | None => ret None
            end) in
        match fetched with
        | Some found_path => ret found_path
        | None => raise NotFoundError
        end
    end.

(** *** ReadableFileWrapper.write_chunks_to

    The [while True] loop goes on until a read returns nothing.  The
    callback is the caller's code and runs between the reads: when it
    raises, the exception leaves the loop, and when it changes the file the
    next read sees the change, so that the loop need not come to an end.
    The loop is therefore given a number of turns, and [None] says that
    they did not suffice. *)

Fixpoint write_chunks_loop (turns : nat) (file : FileReader)
    (callback : list byte -> Env -> Result unit * Env) (s : State)
  : option (Result unit * State) :=
  match turns with
  | 0 => None
  | S turns =>
      match reader_read CHUNK_SIZE file (fs (env s)) with
      | ([], _) => Some (Ok tt, s)
      | (chunk, file) =>
          match (log (EvCallback chunk) ;;
                 call (callback chunk) ;;
                 (* We yield to the reactor by sleeping for 0 seconds. *)
                 log (EvSleep 0)) s with
          | (Ok _, s) => write_chunks_loop turns file callback s
          | (Raise err, s) => Some (Raise err, s)
          end
      end
  end.

Definition write_chunks_to (turns : nat) (self : ReadableFileWrapper)
    (callback : list byte -> Env -> Result unit * Env) (s : State)
  : option (Result unit * State) :=
  match open_reader (path self) s with
  | (Raise err, s) => Some (Raise err, s)
  | (Ok file, s) =>
      match write_chunks_loop turns file callback s with
      | Some (r, s) => Some (try_finally (fun s => (r, s)) (close (path self)) s)
      | None => None
      end
  end.

End Operations.

(** * The vocabulary of the properties *)

(** ** The path resolver, in the specification's words

    The base namespace is
    chosen by the first rule that applies (preview cache, then remote
    origin, then local), and a thumbnail selects the thumbnail variant of
    that namespace. *)

Inductive Namespace :=
| UrlPreviewCache
| RemoteOrigin (origin : string)
| LocalMedia.

Definition base_namespace (file_info : FileInfo) : Namespace :=
  if url_cache file_info then UrlPreviewCache
  else if truthy_str (server_name file_info) then
    RemoteOrigin (default "" (server_name file_info))
  else LocalMedia.

Definition namespace_path (filepaths : MediaFilePaths) (ns : Namespace)
    (id : string) (overlay : option ThumbnailInfo) : string :=
  match ns, overlay with
  | UrlPreviewCache, None => url_cache_filepath_rel filepaths id
  | UrlPreviewCache, Some t =>
      url_cache_thumbnail_rel filepaths id (width t) (height t) (type t) (method t)
  | RemoteOrigin origin, None => remote_media_filepath_rel filepaths origin id
  | RemoteOrigin origin, Some t =>
      remote_media_thumbnail_rel filepaths origin id
        (width t) (height t) (type t) (method t)
  | LocalMedia, None => local_media_filepath_rel filepaths id
  | LocalMedia, Some t =>
      local_media_thumbnail_rel filepaths id (width t) (height t) (type t) (method t)
  end.

Section Vocabulary.

Context {Ext : Type}.
Implicit Types (s : @State Ext) (e : @Env Ext) (self : @MediaStorage Ext).





Definition resolved_path self (file_info : FileInfo) : string :=
  _file_info_to_path (filepaths self) file_info.

Definition resolved_fname self (file_info : FileInfo) : string :=
  os_path_join (local_media_directory self) (resolved_path self file_info).

(** The state in which the caller's block starts: the directory has been
    asked for, the file has been opened for writing (it is empty whatever
    it held before), and control is at the [yield]. *)
Definition at_yield self (file_info : FileInfo) s : State :=
  let fname := resolved_fname self file_info in
  {| env := set_fs (fs_open_wb fname (fs (env s))) (env s);
     trace := trace s ++ [EvMakedirs (os_path_dirname fname);
                          EvOpen fname wb; EvYield fname] |}.

(** The rest of the generator, from the [yield] on. *)
Definition resume_at_yield self (file_info : FileInfo)
    (block : BinaryIO * string -> Env -> Result unit * Env)
  : M (BinaryIO * string) :=
  let fname := resolved_fname self file_info in
  try_except
    (let* yielded :=
       try_finally
         (call (block ({| name := fname |}, fname)) ;;
          ret ({| name := fname |}, fname))
         (close fname) in
     writing_to_other_storage_providers self
       (resolved_path self file_info) fname file_info ;;
     ret yielded)
    (remove_and_reraise fname).

(** The state in which the [with open(...)] block has been left. *)
Definition after_block self (file_info : FileInfo) s e : State :=
  {| env := e;
     trace := trace (at_yield self file_info s)
                ++ [EvClose (resolved_fname self file_info)] |}.

(** What the [except] clause leaves behind: the file is gone when
    [os.remove] succeeds, and the state is as it was when it fails. *)
Definition after_remove (fname : string) s : State :=
  {| env := match fs_remove fname (fs (env s)) with
            | Ok d => set_fs d (env s)
            | Raise _ => env s
            end;
     trace := trace s ++ [EvRemove fname] |}.

(** Replication: each provider's [store_file] runs in the environment
    that the previous one left, and returns before the next one starts. *)
Inductive stored_in_order (p : string) (file_info : FileInfo)
  : list (@StorageProvider Ext) -> Env -> Env -> Prop :=
| stored_none e : stored_in_order p file_info [] e e
| stored_next provider rest e e1 e2 :
    provider_store_file provider p file_info e = (Ok tt, e1) ->
    stored_in_order p file_info rest e1 e2 ->
    stored_in_order p file_info (provider :: rest) e e2.

Definition store_events (p : string) (file_info : FileInfo)
    (providers : list (@StorageProvider Ext)) : list Event :=
  map (fun provider => EvStore (provider_str provider) p file_info) providers.

(** The state in which the spam checker has answered. *)
Definition after_check self (file_info : FileInfo) s e : State :=
  {| env := e;
     trace := trace (at_yield self file_info s)
                ++ [EvClose (resolved_fname self file_info);
                    EvSpamCheck (resolved_fname self file_info) file_info] |}.

(** An exception raised inside the [try]: while the handle is open, by the
    spam checker, by its verdict, or by a provider's [store_file].  The
    state is the one in which it is raised. *)
Inductive raised_during self (file_info : FileInfo)
    (block : BinaryIO * string -> Env -> Result unit * Env) s
  : exn -> State -> Prop :=
| raised_by_block err e3 :
    block ({| name := resolved_fname self file_info |},
           resolved_fname self file_info) (env (at_yield self file_info s))
    = (Raise err, e3) ->
    raised_during self file_info block s err (after_block self file_info s e3)
| raised_by_check err e3 e4 :
    block ({| name := resolved_fname self file_info |},
           resolved_fname self file_info) (env (at_yield self file_info s))
    = (Ok tt, e3) ->
    check_media_file_for_spam (_spam_checker_module_callbacks self)
      {| rfw_clock := clock self; path := resolved_fname self file_info |}
      file_info e3 = (Raise err, e4) ->
    raised_during self file_info block s err (after_check self file_info s e4)
| raised_by_verdict code fields e3 e4 :
    block ({| name := resolved_fname self file_info |},
           resolved_fname self file_info) (env (at_yield self file_info s))
    = (Ok tt, e3) ->
    check_media_file_for_spam (_spam_checker_module_callbacks self)
      {| rfw_clock := clock self; path := resolved_fname self file_info |}
      file_info e3 = (Ok (Rejected code fields), e4) ->
    raised_during self file_info block s (SpamMediaException code)
      (after_check self file_info s e4)
| raised_by_store err e3 e4 done provider rest e5 e6 :
    block ({| name := resolved_fname self file_info |},
           resolved_fname self file_info) (env (at_yield self file_info s))
    = (Ok tt, e3) ->
    check_media_file_for_spam (_spam_checker_module_callbacks self)
      {| rfw_clock := clock self; path := resolved_fname self file_info |}
      file_info e3 = (Ok NOT_SPAM, e4) ->
    storage_providers self = done ++ provider :: rest ->
    stored_in_order (resolved_path self file_info) file_info done e4 e5 ->
    provider_store_file provider (resolved_path self file_info) file_info e5
    = (Raise err, e6) ->
    raised_during self file_info block s err
      {| env := e6;
         trace := trace (after_check self file_info s e4)
                    ++ store_events (resolved_path self file_info) file_info
                         (done ++ [provider]) |}.

(** A stream that has been read to its end. *)
Definition exhausted (data : list byte) : IO :=
  {| io_data := data; io_pos := length data |}.

(** The environment in which [store_file] leaves its [async with] block:
    the local file holds [data] and the source has been read to its end. *)
Definition written_env self (file_info : FileInfo) (source : nat)
    (data : list byte) s : Env :=
  write {| name := resolved_fname self file_info |} data
    (set_stream source (exhausted data) (env (at_yield self file_info s))).

(** What [store_file] still has to do then: check, replicate, clean up on
    failure, and return the path. *)
Definition finish_store_file self (file_info : FileInfo) : M string :=
  let fname := resolved_fname self file_info in
  let* yielded :=
    try_except
      (writing_to_other_storage_providers self
         (resolved_path self file_info) fname file_info ;;
       ret ({| name := fname |}, fname))
      (remove_and_reraise fname) in
  ret (snd yielded).

(** The lookup in the specification's words.  The candidates are the
    resolved path and, for a thumbnail of a descriptor with a server name,
    the legacy path. *)
Definition candidate_paths self (file_info : FileInfo) : list string :=
  resolved_path self file_info
  :: option_list (legacy_path (filepaths self) file_info).

Definition local_candidates self (file_info : FileInfo) : list string :=
  map (os_path_join (local_media_directory self)) (candidate_paths self file_info).

(** The first candidate that is on the local disk: the paths that were
    checked up to it, the path itself and the bytes of the file. *)
Fixpoint first_existing (d : FS) (local_paths : list string)
  : option (list string * string * list byte) :=
  match local_paths with
  | [] => None
  | q :: rest =>
      match files d !! q with
      | Some data => Some ([q], q, data)
      | None =>
          match first_existing d rest with
          | Some (checked, hit, data) => Some (q :: checked, hit, data)
          | None => None
          end
      end
  end.

(** The providers in priority order, each with every candidate path. *)
Definition fetch_plan (providers : list (@StorageProvider Ext))
    (paths : list string) : list (@StorageProvider Ext * string) :=
  flat_map (fun provider => map (pair provider) paths) providers.

(** The first call along a plan that does not come back empty: its
    answer or the exception it raises, the calls made up to it, and the
    environment they leave.  Each call runs in the environment left by the
    one before, and no call is made after that one. *)
Fixpoint first_answer (file_info : FileInfo)
    (plan : list (@StorageProvider Ext * string)) e
  : Result (option Responder) * list (@StorageProvider Ext * string) * Env :=
  match plan with
  | [] => (Ok None, [], e)
  | (provider, q) :: rest =>
      match provider_fetch provider q file_info e with
      | (Ok (Some r), e1) => (Ok (Some r), [(provider, q)], e1)
      | (Raise err, e1) => (Raise err, [(provider, q)], e1)
      | (Ok None, e1) =>
          match first_answer file_info rest e1 with
          | (res, made, e2) => (res, (provider, q) :: made, e2)
          end
      end
  end.

Definition fetch_events (file_info : FileInfo)
    (made : list (@StorageProvider Ext * string)) : list Event :=
  map (fun call => EvFetch (provider_str (fst call)) (snd call) file_info) made.

Definition fetch_media_spec self (file_info : FileInfo) s
  : Result (option Responder) * State :=
  match first_existing (fs (env s)) (local_candidates self file_info) with
  | Some (checked, hit, data) =>
      (Ok (Some (FileResponder {| io_data := data; io_pos := 0 |})),
       {| env := env s;
          trace := trace s ++ map EvExists checked ++ [EvOpen hit rb] |})
  | None =>
      match first_answer file_info
              (fetch_plan (storage_providers self) (candidate_paths self file_info))
              (env s) with
      | (res, made, e') =>
          (res,
           {| env := e';
              trace := trace s
                         ++ map EvExists (local_candidates self file_info)
                         ++ fetch_events file_info made |})
      end
  end.

(** A file is absent from the local disk. *)
Definition absent (d : FS) (q : string) : Prop := files d !! q = None.

(** Every call of a plan is made, in order, and each returns nothing. *)
Inductive all_miss (file_info : FileInfo)
  : list (@StorageProvider Ext * string) -> Env -> Env -> Prop :=
| miss_done e : all_miss file_info [] e e
| miss_next provider q rest e e1 e2 :
    provider_fetch provider q file_info e = (Ok None, e1) ->
    all_miss file_info rest e1 e2 ->
    all_miss file_info ((provider, q) :: rest) e e2.

(** *** Populating the local cache, in the specification's words *)

(** The providers in priority order, each with the resolved path only. *)
Definition ensure_plan self (file_info : FileInfo)
  : list (@StorageProvider Ext * string) :=
  map (fun provider => (provider, resolved_path self file_info))
      (storage_providers self).

(** Streaming a responder into the local file. *)
Definition populate (local_path : string) (r : Responder) e : Env :=
  write {| name := local_path |} (responder_bytes r)
    (set_fs (fs_open_wb local_path (fs e)) e).

(** The calls of a transfer into the local file: the file is opened, it
    is closed when the transfer ends normally, and the responder is
    released either way. *)
Definition transfer_events (local_path : string) (r : Responder) : list Event :=
  match responder_failure r with
  | None => [EvOpen local_path wb; EvClose local_path; EvRelease r]
  | Some _ => [EvOpen local_path wb; EvRelease r]
  end.

Definition ensure_from_providers self (file_info : FileInfo)
    (checked : list string) s : Result string * State :=
  let local_path := resolved_fname self file_info in
  match first_answer file_info (ensure_plan self file_info) (env s) with
  | (Ok (Some r), made, e') =>
      (match responder_failure r with
       | None => Ok local_path
       | Some err => Raise err
       end,
       {| env := populate local_path r e';
          trace := trace s ++ map EvExists checked
                     ++ [EvMakedirs (os_path_dirname local_path)]
                     ++ fetch_events file_info made
                     ++ transfer_events local_path r |})
  | (Ok None, made, e') =>
      (Raise NotFoundError,
       {| env := e';
          trace := trace s ++ map EvExists checked
                     ++ [EvMakedirs (os_path_dirname local_path)]
                     ++ fetch_events file_info made |})
  | (Raise err, made, e') =>
      (Raise err,
       {| env := e';
          trace := trace s ++ map EvExists checked
                     ++ [EvMakedirs (os_path_dirname local_path)]
                     ++ fetch_events file_info made |})
  end.

Definition ensure_spec self (file_info : FileInfo) s : Result string * State :=
  let local_path := resolved_fname self file_info in
  if fs_exists local_path (fs (env s)) then
    (Ok local_path, {| env := env s; trace := trace s ++ [EvExists local_path] |})
  else
    match legacy_path (filepaths self) file_info with
    | Some legacy_p =>
        let legacy_local_path :=
          os_path_join (local_media_directory self) legacy_p in
        if fs_exists legacy_local_path (fs (env s)) then
          (Ok legacy_local_path,
           {| env := env s;
              trace := trace s ++ [EvExists local_path;
                                   EvExists legacy_local_path] |})
        else ensure_from_providers self file_info
               [local_path; legacy_local_path] s
    | None => ensure_from_providers self file_info [local_path] s
    end.

End Vocabulary.

(** ** A small deployment

    One media directory, a layout for the paths, and collaborators that
    always answer the same way. *)

(** A file of three bytes. *)
Definition three_bytes : list byte := [x01; x02; x03]%byte.

Definition state_with_file (p : string) (data : list byte) : @State unit :=
  {| env := {| fs := {| files := {[ p := data ]}; undeletable := ∅ |};
               streams := ∅; ext := tt |};
     trace := [] |}.

Definition demo_filepaths : MediaFilePaths := {|
  local_media_filepath_rel id := "local_content/" +:+ id;
  local_media_thumbnail_rel id w h ct m :=
    "local_thumbnails/" +:+ id +:+ "/" +:+ ct +:+ "-" +:+ m;
  remote_media_filepath_rel origin id :=
    "remote_content/" +:+ origin +:+ "/" +:+ id;
  remote_media_thumbnail_rel origin id w h ct m :=
    "remote_thumbnail/" +:+ origin +:+ "/" +:+ id +:+ "/" +:+ ct +:+ "-" +:+ m;
  remote_media_thumbnail_rel_legacy origin id w h ct :=
    "remote_thumbnail/" +:+ origin +:+ "/" +:+ id +:+ "/" +:+ ct;
  url_cache_filepath_rel id := "url_cache/" +:+ id;
  url_cache_thumbnail_rel id w h ct m :=
    "url_cache_thumbnails/" +:+ id +:+ "/" +:+ ct +:+ "-" +:+ m;
|}.

Definition answering (verdict : SpamVerdict)
  : @SpamCheckerModuleApiCallbacks unit :=
  {| check_media_file_for_spam _ _ e := (Ok verdict, e) |}.

Definition accepting_provider (label : string) : @StorageProvider unit :=
  {| provider_str := label;
     provider_store_file _ _ e := (Ok tt, e);
     provider_fetch _ _ e := (Ok None, e) |}.

Definition failing_provider (label : string) : @StorageProvider unit :=
  {| provider_str := label;
     provider_store_file _ _ e := (Raise (ProviderError "unreachable"), e);
     provider_fetch _ _ e := (Ok None, e) |}.

(** A provider that cannot be reached for reading either. *)
Definition offline_provider (label : string) : @StorageProvider unit :=
  {| provider_str := label;
     provider_store_file _ _ e := (Raise (ProviderError "offline"), e);
     provider_fetch _ _ e := (Raise (ProviderError "offline"), e) |}.

(** A provider that holds [payload] at the relative path [held]. *)
Definition holding_provider (label held : string) (payload : list byte)
  : @StorageProvider unit :=
  {| provider_str := label;
     provider_store_file _ _ e := (Ok tt, e);
     provider_fetch p _ e :=
       (Ok (if String.eqb p held then Some (ProviderResponder payload) else None),
        e) |}.

(** A provider that holds an object at [held], but the connection to it
    is lost after [delivered] has come through. *)
Definition breaking_provider (label held : string) (delivered : list byte)
  : @StorageProvider unit :=
  {| provider_str := label;
     provider_store_file _ _ e := (Ok tt, e);
     provider_fetch p _ e :=
       (Ok (if String.eqb p held
            then Some (InterruptedResponder delivered
                         (ProviderError "connection lost"))
            else None),
        e) |}.

Definition demo_storage (verdict : SpamVerdict)
    (providers : list (@StorageProvider unit)) : @MediaStorage unit :=
  {| local_media_directory := "/media";
     filepaths := demo_filepaths;
     storage_providers := providers;
     _spam_checker_module_callbacks := answering verdict;
     clock := TheClock |}.

Definition local_abc : FileInfo :=
  {| server_name := None; file_id := "abc"; url_cache := false;
     thumbnail := None |}.

Definition remote_thumb : FileInfo :=
  {| server_name := Some "example.org"; file_id := "abc"; url_cache := false;
     thumbnail := Some {| width := 32; height := 32; method := "crop";
                          type := "image/png" |} |}.

Definition old_bytes : list byte := [x6f; x6c; x64]%byte.

Definition writing_block (data : list byte)
  : BinaryIO * string -> @Env unit -> Result unit * Env :=
  fun '(f, _) e => (Ok tt, write f data e).

Definition interrupted_block (data : list byte)
  : BinaryIO * string -> @Env unit -> Result unit * Env :=
  fun '(f, _) e => (Raise (ValueError "connection lost"), write f data e).

Definition empty_state : @State unit :=
  {| env := {| fs := {| files := ∅; undeletable := ∅ |};
               streams := ∅; ext := tt |};
     trace := [] |}.

(** The file of [local_abc] is there already, and the media directory does
    not allow the process to unlink it. *)
Definition protected_state : @State unit :=
  {| env := {| fs := {| files := {[ "/media/local_content/abc" := old_bytes ]};
                        undeletable := {[ "/media/local_content/abc" ]} |};
               streams := ∅; ext := tt |};
     trace := [] |}.

(** The caller's stream 0 holds three bytes and has been read up to the
    second. *)
Definition state_with_source : @State unit :=
  {| env := {| fs := {| files := ∅; undeletable := ∅ |};
               streams := {[ 0 := {| io_data := three_bytes; io_pos := 2 |} ]};
               ext := tt |};
     trace := [] |}.

(** Cache population: only the second provider holds the object. *)
Definition second_provider_holds : @MediaStorage unit :=
  demo_storage NOT_SPAM
    [accepting_provider "B1";
     holding_provider "B2" "local_content/abc" three_bytes].

(** The sizes of the chunks that the callback was called with, in a
    record of calls. *)
Definition callback_sizes (evs : list Event) : list (option nat) :=
  map (fun ev => match ev with
                 | EvCallback chunk => Some (length chunk)
                 | _ => None
                 end) evs.

(** Callbacks: one that only looks at its chunk, one that refuses it, one
    that cuts the file it is fed from down to nothing, and one that adds a
    byte to it. *)
Definition looking : list byte -> @Env unit -> Result unit * Env :=
  fun _ e => (Ok tt, e).

Definition refusing : list byte -> @Env unit -> Result unit * Env :=
  fun _ e => (Raise (ValueError "refused"), e).

Definition truncating (p : string) : list byte -> @Env unit -> Result unit * Env :=
  fun _ e => (Ok tt, set_fs (fs_open_wb p (fs e)) e).

Definition appending (p : string) : list byte -> @Env unit -> Result unit * Env :=
  fun _ e => (Ok tt, write {| name := p |} [x00%byte] e).

(** Two full chunks and three bytes. *)
Definition long_file : list byte := replicate (2 * CHUNK_SIZE + 3) x00%byte.

(** * More vocabulary: what the collaborators leave alone *)



Section Frames.

Context {Ext : Type}.
Implicit Types (s : @State Ext) (e : @Env Ext) (self : @MediaStorage Ext).

(** A collaborator that does not touch the local media directory. *)
Definition fetch_keeps_files (provider : @StorageProvider Ext) : Prop :=
  forall q file_info e, fs (snd (provider_fetch provider q file_info e)) = fs e.

Definition store_keeps_files (provider : @StorageProvider Ext) : Prop :=
  forall q file_info e,
    fs (snd (provider_store_file provider q file_info e)) = fs e.

Definition check_keeps_files (callbacks : @SpamCheckerModuleApiCallbacks Ext)
  : Prop :=
  forall wrapper file_info e,
    fs (snd (check_media_file_for_spam callbacks wrapper file_info e)) = fs e.

End Frames.

(** The deployments and states of the further examples. *)

Definition one_provider : @MediaStorage unit :=
  demo_storage NOT_SPAM [accepting_provider "B1"].

Definition middle_provider_fails : @MediaStorage unit :=
  demo_storage NOT_SPAM
    [accepting_provider "B1"; failing_provider "B2"; accepting_provider "B3"].

Definition stored_state : @State unit :=
  snd (store_file one_provider 0 local_abc state_with_source).

Definition populated_state : @State unit :=
  snd (ensure_media_is_in_local_cache second_provider_holds local_abc
         empty_state).

(** The only provider loses the connection after one byte. *)
Definition connection_breaks : @MediaStorage unit :=
  demo_storage NOT_SPAM [breaking_provider "B1" "local_content/abc" [x01%byte]].

Definition interrupted_state : @State unit :=
  snd (ensure_media_is_in_local_cache connection_breaks local_abc empty_state).

(** * The key configuration of synapse/config/key.py

    [KeyConfig.read_perspectives] and [KeyConfig.generate_config].  The
    functions of syutil, the YAML loader, [os.path.abspath] and the methods
    inherited from [Config] are not part of the sources at hand: they are
    parameters, and what is proved holds for every one of them. *)

Module KeyConfig.

(** Exceptions of this file: the ones Python raises on a lookup, the
    [ConfigError] of the configuration, and whatever a library function
    raises. *)
Inductive PyExn :=
| KeyError (key : string)
| TypeError (msg : string)
| AttributeError (attr : string)
| ConfigError (msg : string)
| LibraryError (msg : string).

Inductive outcome (A : Type) :=
| Done (a : A)
| Fail (e : PyExn).
Arguments Done {A} a.
Arguments Fail {A} e.

Definition obind {A B : Type} (m : outcome A) (k : A -> outcome B) : outcome B :=
  match m with
  | Done a => k a
  | Fail e => Fail e
  end.

Notation "'let?' x := m 'in' k" := (obind m (fun x => k))
  (at level 10, x name, m at level 100, k at level 200).

(** What the YAML loader returns, as far as this file looks into it: a
    string, a mapping with string keys (its items in order, every key
    once), or anything else. *)
#[local] Set Warnings "-register-all".
Inductive Yaml :=
| YStr (s : string)
| YDict (items : list (string * Yaml))
| YOther.

Fixpoint assoc {V : Type} (k : string) (l : list (string * V)) : option V :=
  match l with
  | [] => None
  | (k', v) :: rest => if String.eqb k k' then Some v else assoc k rest
  end.

(** [o[k]] *)
Definition getitem (o : Yaml) (k : string) : outcome Yaml :=
  match o with
  | YDict items =>
      match assoc k items with
      | Some v => Done v
      | None => Fail (KeyError k)
      end
  | YStr _ => Fail (TypeError "string indices must be integers")
  | YOther => Fail (TypeError "object is not subscriptable")
  end.

(** [o.items()] *)
Definition items (o : Yaml) : outcome (list (string * Yaml)) :=
  match o with
  | YDict l => Done l
  | _ => Fail (AttributeError "items")
  end.

Section ReadPerspectives.

Variable VerifyKey : Type.
Variable is_signing_algorithm_supported : string -> bool.
Variable decode_base64 : Yaml -> outcome (list byte).
Variable decode_verify_key_bytes : string -> list byte -> outcome VerifyKey.
Variable read_yaml_file : string -> string -> outcome Yaml.

(** [servers.setdefault(server_name, {})[key_id] = verify_key] *)
Definition set_verify_key (servers : gmap string (gmap string VerifyKey))
    (server_name key_id : string) (verify_key : VerifyKey)
  : gmap string (gmap string VerifyKey) :=
  <[server_name := <[key_id := verify_key]> (default ∅ (servers !! server_name))]>
    servers.

(** The inner loop, over the verify keys of one server. *)
Fixpoint read_verify_keys (server_name : string) (keys : list (string * Yaml))
    (servers : gmap string (gmap string VerifyKey))
  : outcome (gmap string (gmap string VerifyKey)) :=
  match keys with
  | [] => Done servers
  | (key_id, key_data) :: rest =>
      if is_signing_algorithm_supported key_id then
        let? key_base64 := getitem key_data "key" in
        let? key_bytes := decode_base64 key_base64 in
        let? verify_key := decode_verify_key_bytes key_id key_bytes in
        read_verify_keys server_name rest
          (set_verify_key servers server_name key_id verify_key)
      else read_verify_keys server_name rest servers
  end.

(** The outer loop, over the servers. *)
Fixpoint read_servers (config_servers : list (string * Yaml))
    (servers : gmap string (gmap string VerifyKey))
  : outcome (gmap string (gmap string VerifyKey)) :=
  match config_servers with
  | [] => Done servers
  | (server_name, server_config) :: rest =>
      let? verify_keys := getitem server_config "verify_keys" in
      let? keys := items verify_keys in
      let? servers := read_verify_keys server_name keys servers in
      read_servers rest servers
  end.

Definition read_perspectives (perspectives_config_path : string)
  : outcome (gmap string (gmap string VerifyKey)) :=
  let? config := read_yaml_file perspectives_config_path
                   "perspectives_config_path" in
  let? config_servers := getitem config "servers" in
  let? config_servers := items config_servers in
  read_servers config_servers ∅.

(** The verify key of a server under a key id, in the result. *)
Definition verify_key_of (servers : gmap string (gmap string VerifyKey))
    (server_name key_id : string) : option VerifyKey :=
  match servers !! server_name with
  | Some keys => keys !! key_id
  | None => None
  end.

(** The verify key that the configuration gives a server under a key id:
    the algorithm is supported and the key decodes. *)
Definition configured_key (config_servers : list (string * Yaml))
    (server_name key_id : string) (verify_key : VerifyKey) : Prop :=
  exists server_config keys key_data key_base64 key_bytes,
    (server_name, server_config) ∈ config_servers
    /\ getitem server_config "verify_keys" = Done (YDict keys)
    /\ (key_id, key_data) ∈ keys
    /\ is_signing_algorithm_supported key_id = true
    /\ getitem key_data "key" = Done key_base64
    /\ decode_base64 key_base64 = Done key_bytes
    /\ decode_verify_key_bytes key_id key_bytes = Done verify_key.

(** The key that one server's entries give under a key id. *)
Definition listed_key (keys : list (string * Yaml)) (k : string)
    (verify_key : VerifyKey) : Prop :=
  exists key_data key_base64 key_bytes,
    (k, key_data) ∈ keys
    /\ is_signing_algorithm_supported k = true
    /\ getitem key_data "key" = Done key_base64
    /\ decode_base64 key_base64 = Done key_bytes
    /\ decode_verify_key_bytes k key_bytes = Done verify_key.

(** Every server of the result has a key. *)
Definition no_empty_server (servers : gmap string (gmap string VerifyKey))
  : Prop :=
  forall s keys, servers !! s = Some keys -> exists k, is_Some (keys !! k).

(** The configuration is a tree of Python dicts: no key twice. *)
Definition well_formed (config_servers : list (string * Yaml)) : Prop :=
  NoDup (map fst config_servers)
  /\ forall server_name server_config keys,
       (server_name, server_config) ∈ config_servers ->
       getitem server_config "verify_keys" = Done (YDict keys) ->
       NoDup (map fst keys).

End ReadPerspectives.

(** ** generate_config *)

(** The attributes of the parsed arguments that [generate_config] reads
    and sets.  A path that was not given is [None]. *)
Record Args := {
  server_name : string;
  pid_file : string;
  signing_key_path : option string;
  old_signing_key_path : option string;
  perspectives_config_path : option string;
}.

Definition set_pid_file (v : string) (args : Args) : Args :=
  {| server_name := server_name args; pid_file := v;
     signing_key_path := signing_key_path args;
     old_signing_key_path := old_signing_key_path args;
     perspectives_config_path := perspectives_config_path args |}.

Definition set_signing_key_path (v : option string) (args : Args) : Args :=
  {| server_name := server_name args; pid_file := pid_file args;
     signing_key_path := v;
     old_signing_key_path := old_signing_key_path args;
     perspectives_config_path := perspectives_config_path args |}.

Definition set_old_signing_key_path (v : option string) (args : Args) : Args :=
  {| server_name := server_name args; pid_file := pid_file args;
     signing_key_path := signing_key_path args;
     old_signing_key_path := v;
     perspectives_config_path := perspectives_config_path args |}.

Definition set_perspectives_config_path (v : option string) (args : Args)
  : Args :=
  {| server_name := server_name args; pid_file := pid_file args;
     signing_key_path := signing_key_path args;
     old_signing_key_path := old_signing_key_path args;
     perspectives_config_path := v |}.

(** The string that an attribute holds once it is known to be set. *)
Definition path_of (o : option string) : string := default "" o.

Definition newline : ascii := ascii_of_nat 10.

(** [s.split("\n")[0]] *)
Fixpoint first_line (s : string) : string :=
  match s with
  | EmptyString => EmptyString
  | String c rest =>
      if Ascii.eqb c newline then EmptyString else String c (first_line rest)
  end.

(** [s.split()]: the maximal runs of characters that are not whitespace.
    Which characters are whitespace depends on the kind of string that
    [read_file] returns, so the set is an argument: [isspace].  [word] holds
    the current run, last character first. *)
Fixpoint split_from (isspace : ascii -> bool) (word : list ascii) (s : string)
  : list string :=
  match s with
  | EmptyString =>
      match word with
      | [] => []
      | _ => [string_of_list_ascii (rev word)]
      end
  | String c rest =>
      if isspace c then
        match word with
        | [] => split_from isspace [] rest
        | _ => string_of_list_ascii (rev word) :: split_from isspace [] rest
        end
      else split_from isspace (c :: word) rest
  end.

Definition split (isspace : ascii -> bool) (s : string) : list string :=
  split_from isspace [] s.

(** The whitespace of a byte string ([str] of Python 2, [bytes]): tab,
    line feed, vertical tab, form feed, carriage return and space. *)
Definition bytes_isspace (c : ascii) : bool :=
  let n := nat_of_ascii c in
  (Nat.leb 9 n && Nat.leb n 13 || Nat.eqb n 32)%bool.

(** The whitespace of a text string ([str] of Python 3), among the
    characters below 256: also the four separators 28 to 31, the next-line
    character and the no-break space. *)
Definition str_isspace (c : ascii) : bool :=
  let n := nat_of_ascii c in
  (Nat.leb 9 n && Nat.leb n 13 || Nat.leb 28 n && Nat.leb n 32
   || Nat.eqb n 133 || Nat.eqb n 160)%bool.

(** [with open(p, "w") as f: f.write(text)] *)
Definition write_text (p : string) (text : string) (d : FS) : FS :=
  fs_write p (list_byte_of_string text) (fs_open_wb p d).

Definition quoted (s : string) : string :=
  String (ascii_of_nat 34) s +:+ String (ascii_of_nat 34) EmptyString.

Definition line (s : string) : string := s +:+ String newline EmptyString.

(** The perspectives file that is written when there is none. *)
Definition default_perspectives : string :=
  line "servers:"
  +:+ line "  matrix.org:"
  +:+ line "    verify_keys:"
  +:+ line ("      " +:+ quoted "ed25519:auto" +:+ ":")
  +:+ line ("         key: "
            +:+ quoted "Noi6WqcDj0QmPxCNQqgezwTlBKrfqehY1u2FyWP9uYw").

Section GenerateConfig.

Variable SigningKey : Type.
Variable generate_signing_key : string -> SigningKey.
Variable write_signing_keys : list SigningKey -> string.
Variable decode_signing_key_base64 :
  string -> string -> string -> outcome SigningKey.
Variable NACL_ED25519 : string.
Variable isspace : ascii -> bool.
Variable abspath : string -> string.
Variable read_file : string -> string -> FS -> outcome string.
Variable super_generate_config : Args -> string -> FS -> outcome (Args * FS).

Definition generate_config (args : Args) (config_dir_path : string) (d : FS)
  : outcome (Args * FS) :=
  let? super := super_generate_config args config_dir_path d in
  let args := fst super in
  let d := snd super in
  let base_key_name := os_path_join config_dir_path (server_name args) in
  let args := set_pid_file (abspath (pid_file args)) args in
  let args :=
    if negb (truthy_str (signing_key_path args)) then
      set_signing_key_path (Some (base_key_name +:+ ".signing.key")) args
    else args in
  let? d :=
    if negb (fs_exists (path_of (signing_key_path args)) d) then
      Done (write_text (path_of (signing_key_path args))
              (write_signing_keys [generate_signing_key "auto"]) d)
    else
      let? signing_keys :=
        read_file (path_of (signing_key_path args)) "signing_key" d in
      if Nat.eqb (length (split isspace (first_line signing_keys))) 1 then
        (* handle keys in the old format. *)
        let? key :=
          decode_signing_key_base64 NACL_ED25519 "auto"
            (first_line signing_keys) in
        Done (write_text (path_of (signing_key_path args))
                (write_signing_keys [key]) d)
      else Done d in
  let args :=
    if negb (truthy_str (old_signing_key_path args)) then
      set_old_signing_key_path (Some (base_key_name +:+ ".old.signing.keys")) args
    else args in
  let d :=
    if negb (fs_exists (path_of (old_signing_key_path args)) d) then
      fs_open_wb (path_of (old_signing_key_path args)) d
    else d in
  let args :=
    if negb (truthy_str (perspectives_config_path args)) then
      set_perspectives_config_path (Some (base_key_name +:+ ".perspectives")) args
    else args in
  let d :=
    if negb (fs_exists (path_of (perspectives_config_path args)) d) then
      write_text (path_of (perspectives_config_path args)) default_perspectives d
    else d in
  Done (args, d).

(** The path an attribute ends up with: the one given, or the default. *)
Definition chosen_path (given : option string) (fallback : string) : string :=
  if truthy_str given then path_of given else fallback.

(** The step on the signing key alone, from the state the superclasses
    left. *)
Definition signing_key_step (p : string) (d : FS) : outcome FS :=
  if negb (fs_exists p d) then
    Done (write_text p (write_signing_keys [generate_signing_key "auto"]) d)
  else
    let? signing_keys := read_file p "signing_key" d in
    if Nat.eqb (length (split isspace (first_line signing_keys))) 1 then
      let? key :=
        decode_signing_key_base64 NACL_ED25519 "auto" (first_line signing_keys) in
      Done (write_text p (write_signing_keys [key]) d)
    else Done d.

End GenerateConfig.

(** The three paths that [generate_config] settles on, from the arguments
    as the superclasses left them. *)
Definition base_key_name (args0 : Args) (config_dir_path : string) : string :=
  os_path_join config_dir_path (server_name args0).

Definition signing_path (args0 : Args) (config_dir_path : string) : string :=
  chosen_path (signing_key_path args0)
    (base_key_name args0 config_dir_path +:+ ".signing.key").

Definition old_keys_path (args0 : Args) (config_dir_path : string) : string :=
  chosen_path (old_signing_key_path args0)
    (base_key_name args0 config_dir_path +:+ ".old.signing.keys").

Definition perspectives_path (args0 : Args) (config_dir_path : string) : string :=
  chosen_path (perspectives_config_path args0)
    (base_key_name args0 config_dir_path +:+ ".perspectives").

Definition create_empty_if_missing (p : string) (d : FS) : FS :=
  if fs_exists p d then d else fs_open_wb p d.

Definition create_perspectives_if_missing (p : string) (d : FS) : FS :=
  if fs_exists p d then d else write_text p default_perspectives d.

End KeyConfig.

(** ** A small key configuration *)

Module KeyConfigDemo.

Import KeyConfig.

Definition supported (key_id : string) : bool := String.prefix "ed25519:" key_id.

Definition decode_text (y : Yaml) : outcome (list byte) :=
  match y with
  | YStr s => Done (list_byte_of_string s)
  | _ => Fail (TypeError "expected a string")
  end.

Definition verify_key (key_id : string) (key_bytes : list byte)
  : outcome (string * list byte) :=
  Done (key_id, key_bytes).

(** One server with a supported key and a malformed entry of another
    algorithm, and one server with unsupported keys only. *)
Definition perspectives_servers : list (string * Yaml) :=
  [("matrix.org",
    YDict [("verify_keys",
            YDict [("ed25519:auto", YDict [("key", YStr "Noi6WqcDj0Qm")]);
                   ("rsa:old", YOther)])]);
   ("legacy.example",
    YDict [("verify_keys", YDict [("rsa:1", YDict [("key", YStr "abc")])])])].

Definition load_yaml (file_path config_name : string) : outcome Yaml :=
  Done (YDict [("servers", YDict perspectives_servers)]).

Definition trusted_servers : gmap string (gmap string (string * list byte)) :=
  match read_perspectives _ supported decode_text verify_key load_yaml
          "/etc/synapse/example.org.perspectives" with
  | Done servers => servers
  | Fail _ => ∅
  end.

Definition generated_key (version : string) : string := "generated".

Definition key_lines (keys : list string) : string :=
  String.concat "" (map (fun key => line ("ed25519 auto " +:+ key)) keys).

Definition decode_word (algorithm version word : string) : outcome string :=
  if String.eqb word "" then Fail (LibraryError "empty key") else Done word.

Definition from_cwd (p : string) : string :=
  if startswith_sep p then p else "/cwd/" +:+ p.

Definition read_text (file_path config_name : string) (d : FS)
  : outcome string :=
  match files d !! file_path with
  | Some data => Done (string_of_list_byte data)
  | None => Fail (ConfigError ("Missing config for " +:+ config_name))
  end.

Definition no_superclass (args : Args) (config_dir_path : string) (d : FS)
  : outcome (Args * FS) :=
  Done (args, d).

Definition demo_generate_config :=
  generate_config string generated_key key_lines decode_word "ed25519"
    bytes_isspace from_cwd read_text no_superclass.

Definition no_paths : Args :=
  {| server_name := "example.org"; pid_file := "homeserver.pid";
     signing_key_path := None; old_signing_key_path := None;
     perspectives_config_path := None |}.

Definition empty_disk : FS := {| files := ∅; undeletable := ∅ |}.

(** A signing key in the old format and a perspectives file of the
    administrator's own. *)
Definition used_disk : FS :=
  {| files := {[ "/etc/synapse/example.org.signing.key"
                   := list_byte_of_string "c2VjcmV0";
                 "/etc/synapse/example.org.perspectives"
                   := list_byte_of_string "servers: {}" ]};
     undeletable := ∅ |}.

Definition generated_on (d : FS) : Args * FS :=
  match demo_generate_config no_paths "/etc/synapse" d with
  | Done result => result
  | Fail _ => (no_paths, d)
  end.

End KeyConfigDemo.

(** * Properties *)

(** ** Paths *)

Example os_path_join_plain :
  os_path_join "/var/media" "local_content/ab/cd/ef" = "/var/media/local_content/ab/cd/ef".
Proof. reflexivity. Qed.

Example os_path_join_trailing_sep : os_path_join "/var/media/" "x" = "/var/media/x".
Proof. reflexivity. Qed.

Example os_path_dirname_plain :
  os_path_dirname "/var/media/local_content/ab/cd/ef" = "/var/media/local_content/ab/cd".
Proof. reflexivity. Qed.

Example os_path_dirname_root : os_path_dirname "/ef" = "/".
Proof. reflexivity. Qed.

Example os_path_dirname_relative : os_path_dirname "ef" = "".
Proof. reflexivity. Qed.

Lemma base_namespace_url_cache sn id th :
  base_namespace
    {| server_name := sn; file_id := id; url_cache := true; thumbnail := th |}
  = UrlPreviewCache.
Proof. reflexivity. Qed.

Lemma base_namespace_remote name id th :
  name <> "" ->
  base_namespace
    {| server_name := Some name; file_id := id; url_cache := false;
       thumbnail := th |}
  = RemoteOrigin name.
Proof.
  intros Hname. unfold base_namespace; simpl.
  destruct (String.eqb_spec name ""); [contradiction | reflexivity].
Qed.

(** C5: the resolver applies the first matching rule of the order
    url_cache, then server_name, then local, and a thumbnail selects the
    thumbnail variant of the chosen namespace, keyed by width, height,
    content type and method besides the base key.  A descriptor with
    url_cache set resolves under the preview-cache namespace whatever its
    server_name is.  (A server name counts as present when the code's truth
    test accepts it, that is when it is a non-empty string.) *)
Theorem file_info_to_path_first_matching_rule
    (filepaths : MediaFilePaths) (file_info : FileInfo) :
  _file_info_to_path filepaths file_info
  = namespace_path filepaths (base_namespace file_info)
      (file_id file_info) (thumbnail file_info)
  /\ (forall sn id th,
        _file_info_to_path filepaths
          {| server_name := sn; file_id := id; url_cache := true;
             thumbnail := th |}
        = namespace_path filepaths UrlPreviewCache id th).
Proof.
  split.
  - unfold _file_info_to_path, base_namespace.
    destruct (url_cache file_info).
    + destruct (thumbnail file_info); reflexivity.
    + destruct (truthy_str (server_name file_info));
        destruct (thumbnail file_info); reflexivity.
  - intros sn id th. unfold _file_info_to_path; simpl.
    destruct th; reflexivity.
Qed.

(** ** Running the monad *)

Section MonadFacts.

Context {Ext : Type}.
Implicit Types s : @State Ext.

Lemma bind_Ok {A B : Type} (m : M A) (k : A -> M B) s a s' :
  m s = (Ok a, s') -> bind (Ext := Ext) m k s = k a s'.
Proof. intros Hm. unfold bind. rewrite Hm. reflexivity. Qed.

Lemma bind_Raise {A B : Type} (m : M A) (k : A -> M B) s e s' :
  m s = (Raise e, s') -> bind (Ext := Ext) m k s = (Raise e, s').
Proof. intros Hm. unfold bind. rewrite Hm. reflexivity. Qed.

Lemma log_run ev s :
  log ev s = (Ok tt, {| env := env s; trace := trace s ++ [ev] |}).
Proof. reflexivity. Qed.

Lemma state_eta s : {| env := env s; trace := trace s |} = s.
Proof. destruct s; reflexivity. Qed.

End MonadFacts.

(** ** Reading a file in chunks *)

Section Chunks.

Context {Ext : Type}.
Implicit Types s : @State Ext.

Lemma CHUNK_SIZE_pos : 0 < CHUNK_SIZE.
Proof. unfold CHUNK_SIZE. apply Nat.neq_0_lt_0, Nat.pow_nonzero. discriminate. Qed.


Local Opaque CHUNK_SIZE.

(** One turn of the loop whose callback returns. *)
Lemma callback_turn (callback : list byte -> @Env Ext -> Result unit * Env)
    c s e1 :
  callback c (env s) = (Ok tt, e1) ->
  (log (EvCallback c) ;; call (callback c) ;; log (EvSleep 0)) s
  = (Ok tt, {| env := e1; trace := trace s ++ [EvCallback c; EvSleep 0] |}).
Proof.
  intros Hcall. unfold bind at 1. rewrite log_run.
  unfold bind at 1. unfold call at 1. cbn [env trace]. rewrite Hcall.
  rewrite log_run. cbn [env trace]. rewrite <- app_assoc. reflexivity.
Qed.

(** One turn of the loop whose callback raises: the exception leaves the
    loop before the sleep. *)
Lemma callback_turn_raises
    (callback : list byte -> @Env Ext -> Result unit * Env) c s err e1 :
  callback c (env s) = (Raise err, e1) ->
  (log (EvCallback c) ;; call (callback c) ;; log (EvSleep 0)) s
  = (Raise err, {| env := e1; trace := trace s ++ [EvCallback c] |}).
Proof.
  intros Hcall. unfold bind at 1. rewrite log_run.
  unfold bind at 1. unfold call at 1. cbn [env trace]. rewrite Hcall.
  reflexivity.
Qed.




End Chunks.



(** ** The scoped write handle *)

Section StoreIntoFile.

Context {Ext : Type}.
Implicit Types (s : @State Ext) (e : @Env Ext) (self : @MediaStorage Ext).

Lemma remove_and_reraise_run {A : Type} fname err s :
  remove_and_reraise (A := A) fname err s = (Raise err, after_remove fname s).
Proof.
  unfold remove_and_reraise, try_except, os_remove, bind, log, call, raise, ret.
  unfold after_remove. cbn [env trace].
  destruct (fs_remove fname (fs (env s))); reflexivity.
Qed.

Lemma after_remove_absent fname s :
  fname ∉ undeletable (fs (env s)) ->
  files (fs (env (after_remove fname s))) !! fname = None.
Proof.
  intros Hdel. unfold after_remove, fs_remove. cbn [env].
  destruct (files (fs (env s)) !! fname) eqn:Hfile; [|exact Hfile].
  rewrite bool_decide_eq_false_2 by exact Hdel.
  cbn [set_fs fs files]. apply lookup_delete_eq.
Qed.

Lemma after_remove_refused fname s data :
  files (fs (env s)) !! fname = Some data ->
  fname ∈ undeletable (fs (env s)) ->
  env (after_remove fname s) = env s.
Proof.
  intros Hfile Hundel. unfold after_remove, fs_remove. cbn [env].
  rewrite Hfile, bool_decide_eq_true_2 by exact Hundel. reflexivity.
Qed.

Lemma store_into_file_enters self file_info block s :
  store_into_file self file_info block s
  = resume_at_yield self file_info block (at_yield self file_info s).
Proof.
  unfold store_into_file, resume_at_yield, writing_to_main_media_repo.
  fold (resolved_path self file_info). fold (resolved_fname self file_info).
  unfold os_makedirs, open_wb, modify_fs, try_except, try_finally.
  unfold bind, log, call, ret, at_yield. cbn [env trace].
  rewrite <- !app_assoc. reflexivity.
Qed.

Lemma store_file_on_run provider p file_info s :
  store_file_on provider p file_info s
  = (fst (provider_store_file provider p file_info (env s)),
     {| env := snd (provider_store_file provider p file_info (env s));
        trace := trace s ++ [EvStore (provider_str provider) p file_info] |}).
Proof.
  unfold store_file_on, bind, log, call. cbn [env trace].
  destruct (provider_store_file provider p file_info (env s)) as [[[]|err] e1];
    reflexivity.
Qed.

Lemma for_each_store_ok providers p file_info s s' :
  for_each providers (fun provider => store_file_on provider p file_info) s
  = (Ok tt, s') ->
  trace s' = trace s ++ store_events p file_info providers
  /\ stored_in_order p file_info providers (env s) (env s').
Proof.
  revert s. induction providers as [|provider rest IH]; intros s Hrun.
  - injection Hrun as <-. split; [symmetry; apply app_nil_r | constructor].
  - cbn [for_each] in Hrun. unfold bind at 1 in Hrun.
    rewrite store_file_on_run in Hrun.
    destruct (provider_store_file provider p file_info (env s))
      as [[[]|err] e1] eqn:Hstore; cbn [fst snd] in Hrun; [|discriminate].
    apply IH in Hrun as [Htrace Horder]. cbn [env trace] in *. split.
    + rewrite Htrace, <- app_assoc. reflexivity.
    + econstructor; eassumption.
Qed.

Lemma for_each_store_raises providers p file_info s err s' :
  for_each providers (fun provider => store_file_on provider p file_info) s
  = (Raise err, s') ->
  exists done provider rest e1,
    providers = done ++ provider :: rest
    /\ stored_in_order p file_info done (env s) e1
    /\ provider_store_file provider p file_info e1 = (Raise err, env s')
    /\ trace s' = trace s ++ store_events p file_info (done ++ [provider]).
Proof.
  revert s. induction providers as [|provider rest IH]; intros s Hrun.
  - discriminate.
  - cbn [for_each] in Hrun. unfold bind at 1 in Hrun.
    rewrite store_file_on_run in Hrun.
    destruct (provider_store_file provider p file_info (env s))
      as [[[]|err0] e1] eqn:Hstore; cbn [fst snd] in Hrun.
    + apply IH in Hrun as (done & failing & rest' & e2 & -> & Hdone & Hfail & Htrace).
      cbn [env trace] in *.
      exists (provider :: done), failing, rest', e2. repeat split.
      * econstructor; eassumption.
      * exact Hfail.
      * rewrite Htrace, <- app_assoc. reflexivity.
    + injection Hrun as -> <-. cbn [env trace].
      exists [], provider, rest, (env s). repeat split.
      * constructor.
      * exact Hstore.
Qed.

(** The three ways in which the generator goes on after the [yield]. *)

Lemma resume_block_raises self file_info block s err e3 :
  block ({| name := resolved_fname self file_info |},
         resolved_fname self file_info) (env (at_yield self file_info s))
  = (Raise err, e3) ->
  resume_at_yield self file_info block (at_yield self file_info s)
  = (Raise err,
     after_remove (resolved_fname self file_info)
       (after_block self file_info s e3)).
Proof.
  intros Hblock. unfold resume_at_yield, try_except, try_finally, close.
  unfold bind at 1. unfold bind at 1. unfold call at 1. rewrite Hblock.
  rewrite log_run. cbn [env trace].
  apply remove_and_reraise_run.
Qed.

Lemma resume_block_returns self file_info block s e3 :
  block ({| name := resolved_fname self file_info |},
         resolved_fname self file_info) (env (at_yield self file_info s))
  = (Ok tt, e3) ->
  resume_at_yield self file_info block (at_yield self file_info s)
  = try_except
      (writing_to_other_storage_providers self (resolved_path self file_info)
         (resolved_fname self file_info) file_info ;;
       ret ({| name := resolved_fname self file_info |},
            resolved_fname self file_info))
      (remove_and_reraise (resolved_fname self file_info))
      (after_block self file_info s e3).
Proof.
  intros Hblock. unfold resume_at_yield, try_except, try_finally, close.
  unfold bind at 1. unfold bind at 1. unfold bind at 1. unfold call at 1.
  rewrite Hblock. unfold ret at 1. rewrite log_run. cbn [env trace].
  reflexivity.
Qed.

Lemma spam_check_run self file_info s e3 :
  spam_check_on (_spam_checker_module_callbacks self)
    {| rfw_clock := clock self; path := resolved_fname self file_info |}
    file_info (after_block self file_info s e3)
  = (fst (check_media_file_for_spam (_spam_checker_module_callbacks self)
            {| rfw_clock := clock self; path := resolved_fname self file_info |}
            file_info e3),
     after_check self file_info s
       (snd (check_media_file_for_spam (_spam_checker_module_callbacks self)
               {| rfw_clock := clock self; path := resolved_fname self file_info |}
               file_info e3))).
Proof.
  unfold spam_check_on, bind, log, call, after_check, after_block.
  cbn [env trace path].
  destruct (check_media_file_for_spam _ _ _ e3) as [[v|err] e4];
    cbn [fst snd]; rewrite <- app_assoc; reflexivity.
Qed.

Lemma replicate_check_raises self file_info s e3 err e4 :
  check_media_file_for_spam (_spam_checker_module_callbacks self)
    {| rfw_clock := clock self; path := resolved_fname self file_info |}
    file_info e3 = (Raise err, e4) ->
  writing_to_other_storage_providers self (resolved_path self file_info)
    (resolved_fname self file_info) file_info (after_block self file_info s e3)
  = (Raise err, after_check self file_info s e4).
Proof.
  intros Hcheck. unfold writing_to_other_storage_providers.
  unfold bind at 1. rewrite spam_check_run, Hcheck. reflexivity.
Qed.

Lemma replicate_check_rejects self file_info s e3 code fields e4 :
  check_media_file_for_spam (_spam_checker_module_callbacks self)
    {| rfw_clock := clock self; path := resolved_fname self file_info |}
    file_info e3 = (Ok (Rejected code fields), e4) ->
  writing_to_other_storage_providers self (resolved_path self file_info)
    (resolved_fname self file_info) file_info (after_block self file_info s e3)
  = (Raise (SpamMediaException code), after_check self file_info s e4).
Proof.
  intros Hcheck. unfold writing_to_other_storage_providers.
  unfold bind at 1. rewrite spam_check_run, Hcheck. reflexivity.
Qed.

Lemma replicate_check_passes self file_info s e3 e4 :
  check_media_file_for_spam (_spam_checker_module_callbacks self)
    {| rfw_clock := clock self; path := resolved_fname self file_info |}
    file_info e3 = (Ok NOT_SPAM, e4) ->
  writing_to_other_storage_providers self (resolved_path self file_info)
    (resolved_fname self file_info) file_info (after_block self file_info s e3)
  = for_each (storage_providers self)
      (fun provider =>
         store_file_on provider (resolved_path self file_info) file_info)
      (after_check self file_info s e4).
Proof.
  intros Hcheck. unfold writing_to_other_storage_providers.
  unfold bind at 1. rewrite spam_check_run, Hcheck. reflexivity.
Qed.

Lemma for_each_store_stops done provider rest p file_info s e1 err e2 :
  stored_in_order p file_info done (env s) e1 ->
  provider_store_file provider p file_info e1 = (Raise err, e2) ->
  for_each (done ++ provider :: rest)
    (fun provider => store_file_on provider p file_info) s
  = (Raise err,
     {| env := e2;
        trace := trace s ++ store_events p file_info (done ++ [provider]) |}).
Proof.
  intros Hdone Hfail. revert s Hdone.
  induction done as [|first done IH]; intros s Hdone.
  - inversion Hdone; subst. cbn [app for_each]. unfold bind at 1.
    rewrite store_file_on_run, Hfail. reflexivity.
  - inversion Hdone as [|? ? ? e' ? Hfirst Hrest]; subst.
    cbn [app for_each]. unfold bind at 1.
    rewrite store_file_on_run, Hfirst. cbn [fst snd].
    rewrite IH by exact Hrest. cbn [env trace].
    rewrite <- app_assoc. reflexivity.
Qed.

Lemma guarded_raise {A B : Type} (m : M A) (k : A -> M B) handler s err s' :
  m s = (Raise err, s') ->
  try_except (Ext := Ext) (bind m k) handler s = handler err s'.
Proof.
  intros Hm. unfold try_except. rewrite (bind_Raise _ _ _ _ _ Hm). reflexivity.
Qed.

Lemma store_into_file_reraises self file_info block s err s_fail :
  raised_during self file_info block s err s_fail ->
  store_into_file self file_info block s
  = (Raise err, after_remove (resolved_fname self file_info) s_fail).
Proof.
  intros Hraised. rewrite store_into_file_enters.
  destruct Hraised as [err e3 Hblock | err e3 e4 Hblock Hcheck
                      | code fields e3 e4 Hblock Hcheck
                      | err e3 e4 done provider rest e5 e6
                          Hblock Hcheck Hproviders Hdone Hfail].
  - apply resume_block_raises, Hblock.
  - rewrite (resume_block_returns _ _ _ _ _ Hblock).
    rewrite (guarded_raise _ _ _ _ _ _ (replicate_check_raises _ _ _ _ _ _ Hcheck)).
    apply remove_and_reraise_run.
  - rewrite (resume_block_returns _ _ _ _ _ Hblock).
    rewrite (guarded_raise _ _ _ _ _ _
               (replicate_check_rejects _ _ _ _ _ _ _ Hcheck)).
    apply remove_and_reraise_run.
  - rewrite (resume_block_returns _ _ _ _ _ Hblock).
    erewrite guarded_raise; [apply remove_and_reraise_run|].
    rewrite (replicate_check_passes _ _ _ _ _ Hcheck), Hproviders.
    eapply for_each_store_stops; eassumption.
Qed.

(** C1, as the code has it: when an exception is raised while the handle
    is open, by the spam checker or its verdict, or by a provider's
    [store_file], the coordinator calls [os.remove] on the local file once
    and raises that same exception again, whatever [os.remove] did: an error
    of the deletion never reaches the caller.  The local file does not exist
    afterwards unless the operating system refused to delete it; in that
    case it is left as it was. *)
Theorem store_into_file_failure_cleanup self file_info block s err s_fail :
  raised_during self file_info block s err s_fail ->
  let fname := resolved_fname self file_info in
  let s_end := after_remove fname s_fail in
  store_into_file self file_info block s = (Raise err, s_end)
  /\ trace s_end = trace s_fail ++ [EvRemove fname]
  /\ (fname ∉ undeletable (fs (env s_fail)) ->
      files (fs (env s_end)) !! fname = None)
  /\ (fname ∈ undeletable (fs (env s_fail)) -> env s_end = env s_fail).
Proof.
  intros Hraised fname s_end. split; [|split; [|split]].
  - apply store_into_file_reraises, Hraised.
  - reflexivity.
  - apply after_remove_absent.
  - intros Hrefused. subst s_end.
    destruct (files (fs (env s_fail)) !! fname) as [data|] eqn:Hfile.
    + eapply after_remove_refused; eassumption.
    + unfold after_remove, fs_remove. cbn [env]. rewrite Hfile. reflexivity.
Qed.

(** Every run of [store_into_file] either raises one of the exceptions of
    [raised_during], or passes the check and stores in every provider. *)
Lemma store_into_file_cases self file_info block s :
  (exists err s_fail, raised_during self file_info block s err s_fail)
  \/ (exists e3 e4 s',
        block ({| name := resolved_fname self file_info |},
               resolved_fname self file_info) (env (at_yield self file_info s))
        = (Ok tt, e3)
        /\ check_media_file_for_spam (_spam_checker_module_callbacks self)
             {| rfw_clock := clock self; path := resolved_fname self file_info |}
             file_info e3 = (Ok NOT_SPAM, e4)
        /\ for_each (storage_providers self)
             (fun provider =>
                store_file_on provider (resolved_path self file_info) file_info)
             (after_check self file_info s e4) = (Ok tt, s')
        /\ store_into_file self file_info block s
           = (Ok ({| name := resolved_fname self file_info |},
                  resolved_fname self file_info), s')).
Proof.
  destruct (block ({| name := resolved_fname self file_info |},
                   resolved_fname self file_info)
              (env (at_yield self file_info s))) as [[[]|err] e3] eqn:Hblock.
  2: { left. eexists _, _. eapply raised_by_block, Hblock. }
  destruct (check_media_file_for_spam (_spam_checker_module_callbacks self)
              {| rfw_clock := clock self; path := resolved_fname self file_info |}
              file_info e3) as [[[|code fields]|err] e4] eqn:Hcheck.
  2: { left. eexists _, _. eapply raised_by_verdict; eassumption. }
  2: { left. eexists _, _. eapply raised_by_check; eassumption. }
  destruct (for_each (storage_providers self)
              (fun provider =>
                 store_file_on provider (resolved_path self file_info) file_info)
              (after_check self file_info s e4)) as [[[]|err] s'] eqn:Hstores.
  - right. exists e3, e4, s'. repeat split; try assumption.
    rewrite store_into_file_enters, (resume_block_returns _ _ _ _ _ Hblock).
    unfold try_except.
    rewrite (bind_Ok _ _ _ tt s')
      by (rewrite (replicate_check_passes _ _ _ _ _ Hcheck); exact Hstores).
    reflexivity.
  - left. apply for_each_store_raises in Hstores
      as (done & provider & rest & e5 & Hproviders & Hdone & Hfail & Htrace).
    exists err, s'. destruct s' as [e6 tr]. cbn [env trace] in *. subst tr.
    eapply raised_by_store; eassumption.
Qed.

Lemma trace_after_check self file_info s e :
  trace (after_check self file_info s e)
  = trace s ++ [EvMakedirs (os_path_dirname (resolved_fname self file_info));
                EvOpen (resolved_fname self file_info) wb;
                EvYield (resolved_fname self file_info);
                EvClose (resolved_fname self file_info);
                EvSpamCheck (resolved_fname self file_info) file_info].
Proof.
  unfold after_check, at_yield. cbn [trace]. rewrite <- app_assoc. reflexivity.
Qed.

(** C2, as the code has it: when the block has returned and the spam
    checker answers with anything but NOT_SPAM, [store_into_file] raises
    [SpamMediaException], which is a [NotFoundError]; no provider's
    [store_file] is called; [os.remove] is called on the local file, which
    is gone afterwards unless the operating system refused the deletion.
    When the answer is NOT_SPAM the coordinator goes on to store in the
    providers, and an exception it raises then is one that a provider's
    [store_file] raised. *)
Theorem store_into_file_spam_gate self file_info block s e3 verdict e4 :
  block ({| name := resolved_fname self file_info |},
         resolved_fname self file_info) (env (at_yield self file_info s))
  = (Ok tt, e3) ->
  check_media_file_for_spam (_spam_checker_module_callbacks self)
    {| rfw_clock := clock self; path := resolved_fname self file_info |}
    file_info e3 = (Ok verdict, e4) ->
  let fname := resolved_fname self file_info in
  let p := resolved_path self file_info in
  match verdict with
  | Rejected code fields =>
      let s_end := after_remove fname (after_check self file_info s e4) in
      store_into_file self file_info block s
      = (Raise (SpamMediaException code), s_end)
      /\ isinstance_NotFoundError (SpamMediaException code) = true
      /\ trace s_end
         = trace s ++ [EvMakedirs (os_path_dirname fname); EvOpen fname wb;
                       EvYield fname; EvClose fname;
                       EvSpamCheck fname file_info; EvRemove fname]
      /\ (fname ∉ undeletable (fs e4) -> files (fs (env s_end)) !! fname = None)
  | NOT_SPAM =>
      store_into_file self file_info block s
      = try_except
          (for_each (storage_providers self)
             (fun provider => store_file_on provider p file_info) ;;
           ret ({| name := fname |}, fname))
          (remove_and_reraise fname)
          (after_check self file_info s e4)
      /\ (forall err s',
            store_into_file self file_info block s = (Raise err, s') ->
            exists provider e5 e6,
              provider ∈ storage_providers self
              /\ provider_store_file provider p file_info e5 = (Raise err, e6))
  end.
Proof.
  intros Hblock Hcheck fname p. destruct verdict as [|code fields].
  - assert (Hrun : store_into_file self file_info block s
                   = try_except
                       (for_each (storage_providers self)
                          (fun provider => store_file_on provider p file_info) ;;
                        ret ({| name := fname |}, fname))
                       (remove_and_reraise fname)
                       (after_check self file_info s e4)).
    { rewrite store_into_file_enters, (resume_block_returns _ _ _ _ _ Hblock).
      unfold try_except, bind.
      rewrite (replicate_check_passes _ _ _ _ _ Hcheck). reflexivity. }
    split; [exact Hrun|].
    intros err s' Hraise. rewrite Hrun in Hraise.
    unfold try_except in Hraise. unfold bind at 1 in Hraise.
    destruct (for_each (storage_providers self)
                (fun provider => store_file_on provider p file_info)
                (after_check self file_info s e4)) as [[[]|err0] s0] eqn:Hstores.
    + discriminate.
    + rewrite remove_and_reraise_run in Hraise. injection Hraise as -> _.
      apply for_each_store_raises in Hstores
        as (done & provider & rest & e5 & Hproviders & _ & Hfail & _).
      exists provider, e5, (env s0). split; [|exact Hfail].
      rewrite Hproviders. apply elem_of_app. right. apply list_elem_of_here.
  - intros s_end. split; [|split; [|split]].
    + apply store_into_file_reraises. eapply raised_by_verdict; eassumption.
    + reflexivity.
    + subst s_end. unfold after_remove. cbn [trace].
      rewrite trace_after_check, <- app_assoc. reflexivity.
    + intros Hdel. apply after_remove_absent. exact Hdel.
Qed.

(** C6, as the code has it: on entry [store_into_file] resolves the path,
    calls [os.makedirs] on the directory of the file, opens the file with
    mode "wb" and yields the handle with the absolute path.  The open does
    not fail when the file is there: the file is truncated, so the block
    starts on an empty file whatever bytes it held; no other file
    changes. *)
Theorem store_into_file_opens_truncating self file_info block s :
  let fname := resolved_fname self file_info in
  let s_yield := at_yield self file_info s in
  fname = os_path_join (local_media_directory self)
            (_file_info_to_path (filepaths self) file_info)
  /\ trace s_yield
     = trace s ++ [EvMakedirs (os_path_dirname fname);
                   EvOpen fname wb; EvYield fname]
  /\ files (fs (env s_yield)) !! fname = Some []
  /\ (forall q, q <> fname ->
        files (fs (env s_yield)) !! q = files (fs (env s)) !! q)
  /\ store_into_file self file_info block s
     = resume_at_yield self file_info block s_yield
  /\ (forall err e3,
        block ({| name := fname |}, fname) (env s_yield) = (Raise err, e3) ->
        store_into_file self file_info block s
        = (Raise err, after_remove fname (after_block self file_info s e3)))
  /\ (forall e3,
        block ({| name := fname |}, fname) (env s_yield) = (Ok tt, e3) ->
        store_into_file self file_info block s
        = try_except
            (writing_to_other_storage_providers self
               (resolved_path self file_info) fname file_info ;;
             ret ({| name := fname |}, fname))
            (remove_and_reraise fname)
            (after_block self file_info s e3)).
Proof.
  intros fname s_yield. repeat apply conj.
  - reflexivity.
  - reflexivity.
  - subst s_yield. unfold at_yield. cbn [env set_fs fs fs_open_wb files].
    apply lookup_insert_eq.
  - intros q Hq. subst s_yield. unfold at_yield.
    cbn [env set_fs fs fs_open_wb files].
    apply lookup_insert_ne. intros Heq. apply Hq. symmetry. exact Heq.
  - apply store_into_file_enters.
  - intros err e3 Hblock. rewrite store_into_file_enters.
    apply resume_block_raises, Hblock.
  - intros e3 Hblock. rewrite store_into_file_enters.
    apply resume_block_returns, Hblock.
Qed.

(** C9: when [store_into_file] succeeds, the block has returned and the
    file has been closed, the spam checker has then answered NOT_SPAM, and
    after that [store_file] has been called on every provider, once each, in
    the order of [storage_providers]; each call ran in the environment that
    the previous one left when it returned. *)
Theorem store_into_file_replicates_in_order self file_info block s yielded s' :
  store_into_file self file_info block s = (Ok yielded, s') ->
  let fname := resolved_fname self file_info in
  let p := resolved_path self file_info in
  exists e3 e4,
    block ({| name := fname |}, fname) (env (at_yield self file_info s))
    = (Ok tt, e3)
    /\ check_media_file_for_spam (_spam_checker_module_callbacks self)
         {| rfw_clock := clock self; path := fname |} file_info e3
       = (Ok NOT_SPAM, e4)
    /\ stored_in_order p file_info (storage_providers self) e4 (env s')
    /\ trace s'
       = trace s ++ [EvMakedirs (os_path_dirname fname); EvOpen fname wb;
                     EvYield fname; EvClose fname; EvSpamCheck fname file_info]
           ++ store_events p file_info (storage_providers self).
Proof.
  intros Hrun fname p.
  destruct (store_into_file_cases self file_info block s)
    as [(err & s_fail & Hraised) | (e3 & e4 & s1 & Hblock & Hcheck & Hstores & Hok)].
  - rewrite (store_into_file_reraises _ _ _ _ _ _ Hraised) in Hrun. discriminate.
  - rewrite Hok in Hrun. injection Hrun as _ <-.
    apply for_each_store_ok in Hstores as [Htrace Horder].
    exists e3, e4. repeat split; try assumption.
    rewrite Htrace, trace_after_check, <- app_assoc. reflexivity.
Qed.

End StoreIntoFile.

Example resolved_fname_local_abc :
  resolved_fname (demo_storage NOT_SPAM []) local_abc = "/media/local_content/abc".
Proof. reflexivity. Qed.

(** C1 does not hold as it is stated: the block is interrupted, the
    deletion is refused, the caller gets the block's exception and the local
    file is still there. *)
Lemma store_into_file_failure_can_leave_file :
  exists s',
    store_into_file (demo_storage NOT_SPAM []) local_abc
      (interrupted_block three_bytes) protected_state
    = (Raise (ValueError "connection lost"), s')
    /\ files (fs (env s')) !! "/media/local_content/abc" = Some three_bytes.
Proof.
  eexists. split.
  - vm_compute. reflexivity.
  - vm_compute. reflexivity.
Qed.

(** The amended C1 on a block that is interrupted after it has written
    three bytes. *)
Lemma store_into_file_failure_cleanup_witness :
  raised_during (demo_storage NOT_SPAM []) local_abc
    (interrupted_block three_bytes) empty_state
    (ValueError "connection lost")
    (after_block (demo_storage NOT_SPAM []) local_abc empty_state
       (write {| name := "/media/local_content/abc" |} three_bytes
          (env (at_yield (demo_storage NOT_SPAM []) local_abc empty_state))))
  /\ store_into_file (demo_storage NOT_SPAM []) local_abc
       (interrupted_block three_bytes) empty_state
     = (Raise (ValueError "connection lost"),
        after_remove "/media/local_content/abc"
          (after_block (demo_storage NOT_SPAM []) local_abc empty_state
             (write {| name := "/media/local_content/abc" |} three_bytes
                (env (at_yield (demo_storage NOT_SPAM []) local_abc
                        empty_state))))).
Proof.
  assert (Hraised : raised_during (demo_storage NOT_SPAM []) local_abc
            (interrupted_block three_bytes) empty_state
            (ValueError "connection lost")
            (after_block (demo_storage NOT_SPAM []) local_abc empty_state
               (write {| name := "/media/local_content/abc" |} three_bytes
                  (env (at_yield (demo_storage NOT_SPAM []) local_abc
                          empty_state))))).
  { apply raised_by_block. reflexivity. }
  split; [exact Hraised|].
  exact (proj1 (store_into_file_failure_cleanup _ _ _ _ _ _ Hraised)).
Defined.

(** C2 does not hold as it is stated: the checker rejects the upload, no
    provider is called and the caller gets a [NotFoundError], but the
    deletion is refused and the local file stays. *)
Lemma store_into_file_rejection_can_leave_file :
  exists s',
    store_into_file
      (demo_storage (Rejected "M_FORBIDDEN" []) [accepting_provider "B1"])
      local_abc (writing_block three_bytes) protected_state
    = (Raise (SpamMediaException "M_FORBIDDEN"), s')
    /\ trace s'
       = [EvMakedirs "/media/local_content";
          EvOpen "/media/local_content/abc" wb;
          EvYield "/media/local_content/abc";
          EvClose "/media/local_content/abc";
          EvSpamCheck "/media/local_content/abc" local_abc;
          EvRemove "/media/local_content/abc"]
    /\ files (fs (env s')) !! "/media/local_content/abc" = Some three_bytes.
Proof.
  eexists. split; [|split].
  - vm_compute. reflexivity.
  - vm_compute. reflexivity.
  - vm_compute. reflexivity.
Qed.

(** The amended C2 on a checker that rejects. *)
Lemma store_into_file_spam_gate_witness :
  store_into_file
    (demo_storage (Rejected "M_FORBIDDEN" []) [accepting_provider "B1"])
    local_abc (writing_block three_bytes) empty_state
  = (Raise (SpamMediaException "M_FORBIDDEN"),
     after_remove "/media/local_content/abc"
       (after_check
          (demo_storage (Rejected "M_FORBIDDEN" []) [accepting_provider "B1"])
          local_abc empty_state
          (write {| name := "/media/local_content/abc" |} three_bytes
             (env (at_yield
                     (demo_storage (Rejected "M_FORBIDDEN" [])
                        [accepting_provider "B1"])
                     local_abc empty_state))))).
Proof.
  exact (proj1 (store_into_file_spam_gate
                  (demo_storage (Rejected "M_FORBIDDEN" [])
                     [accepting_provider "B1"])
                  local_abc (writing_block three_bytes) empty_state
                  (write {| name := "/media/local_content/abc" |} three_bytes
                     (env (at_yield
                             (demo_storage (Rejected "M_FORBIDDEN" [])
                                [accepting_provider "B1"])
                             local_abc empty_state)))
                  (Rejected "M_FORBIDDEN" [])
                  _ eq_refl eq_refl)).
Defined.

(** C6 does not hold as it is stated: the file is there, the open succeeds
    and the bytes it held are gone. *)
Lemma store_into_file_overwrites_existing_file :
  files (fs (env (state_with_file "/media/local_content/abc" old_bytes)))
    !! "/media/local_content/abc" = Some old_bytes
  /\ exists s',
       store_into_file (demo_storage NOT_SPAM []) local_abc
         (writing_block []) (state_with_file "/media/local_content/abc" old_bytes)
       = (Ok ({| name := "/media/local_content/abc" |},
              "/media/local_content/abc"), s')
       /\ files (fs (env s')) !! "/media/local_content/abc" = Some [].
Proof.
  split; [reflexivity|].
  eexists. split.
  - vm_compute. reflexivity.
  - vm_compute. reflexivity.
Qed.

(** The property of C9 on two providers that accept. *)
Lemma store_into_file_replicates_in_order_witness :
  exists e3 e4,
    writing_block three_bytes
      ({| name := "/media/local_content/abc" |}, "/media/local_content/abc")
      (env (at_yield
              (demo_storage NOT_SPAM
                 [accepting_provider "B1"; accepting_provider "B2"])
              local_abc empty_state))
    = (Ok tt, e3)
    /\ (Ok NOT_SPAM, e3) = (Ok NOT_SPAM, e4)
    /\ stored_in_order "local_content/abc" local_abc
         [accepting_provider "B1"; accepting_provider "B2"] e4
         (env (snd (store_into_file
                      (demo_storage NOT_SPAM
                         [accepting_provider "B1"; accepting_provider "B2"])
                      local_abc (writing_block three_bytes) empty_state)))
    /\ trace (snd (store_into_file
                     (demo_storage NOT_SPAM
                        [accepting_provider "B1"; accepting_provider "B2"])
                     local_abc (writing_block three_bytes) empty_state))
       = [] ++ [EvMakedirs "/media/local_content";
                EvOpen "/media/local_content/abc" wb;
                EvYield "/media/local_content/abc";
                EvClose "/media/local_content/abc";
                EvSpamCheck "/media/local_content/abc" local_abc]
            ++ [EvStore "B1" "local_content/abc" local_abc;
                EvStore "B2" "local_content/abc" local_abc].
Proof.
  apply (store_into_file_replicates_in_order
           (demo_storage NOT_SPAM
              [accepting_provider "B1"; accepting_provider "B2"])
           local_abc (writing_block three_bytes) empty_state
           ({| name := "/media/local_content/abc" |}, "/media/local_content/abc")).
  vm_compute. reflexivity.
Defined.

(** ** Copying a source stream *)

Section StoreFile.

Context {Ext : Type}.
Implicit Types (s : @State Ext) (e : @Env Ext) (self : @MediaStorage Ext).

Lemma io_read_all_rewound (f : IO) :
  io_read_all (io_seek 0 f) = (io_data f, exhausted (io_data f)).
Proof.
  unfold io_read_all, io_read, io_seek, exhausted. cbn [io_data io_pos].
  rewrite drop_0, firstn_all. reflexivity.
Qed.

Lemma write_file_synchronously_copies_all source dest e f :
  streams e !! source = Some f ->
  _write_file_synchronously source dest e
  = (Ok tt, write dest (io_data f) (set_stream source (exhausted (io_data f)) e)).
Proof.
  intros Hsource. unfold _write_file_synchronously.
  rewrite Hsource, io_read_all_rewound. reflexivity.
Qed.

Lemma written_env_file self file_info source data s :
  files (fs (written_env self file_info source data s))
    !! resolved_fname self file_info = Some data.
Proof.
  unfold written_env, write, at_yield, set_stream, set_fs, fs_write, fs_open_wb.
  cbn [fs files env name]. rewrite !lookup_insert_eq. reflexivity.
Qed.

Lemma written_env_source self file_info source data s :
  streams (written_env self file_info source data s) !! source
  = Some (exhausted data).
Proof.
  unfold written_env, write, set_stream, set_fs. cbn [streams].
  apply lookup_insert_eq.
Qed.

Lemma store_file_runs self source file_info s f :
  streams (env s) !! source = Some f ->
  store_file self source file_info s
  = finish_store_file self file_info
      (after_block self file_info s
         (written_env self file_info source (io_data f) s)).
Proof.
  intros Hsource. unfold store_file, finish_store_file.
  unfold bind at 1. rewrite store_into_file_enters.
  rewrite (resume_block_returns _ _ _ _
             (written_env self file_info source (io_data f) s)).
  - reflexivity.
  - unfold write_to_file. apply write_file_synchronously_copies_all.
    exact Hsource.
Qed.

(** C8: [_write_file_synchronously] seeks the source to offset 0 before it
    copies, so what it writes is the whole of the source whatever the
    position was.  In [store_file] the local file therefore holds exactly
    the bytes of the source when the block is left, and the source is left
    at its end; a second [store_file] with the same handle, which starts
    from that position, writes the same bytes again. *)
Theorem store_file_rewinds_source self source file_info s f :
  streams (env s) !! source = Some f ->
  let fname := resolved_fname self file_info in
  let e_written := written_env self file_info source (io_data f) s in
  (forall dest e,
     streams e !! source = Some f ->
     _write_file_synchronously source dest e
     = (Ok tt,
        write dest (io_data f) (set_stream source (exhausted (io_data f)) e)))
  /\ store_file self source file_info s
     = finish_store_file self file_info (after_block self file_info s e_written)
  /\ files (fs e_written) !! fname = Some (io_data f)
  /\ streams e_written !! source = Some (exhausted (io_data f))
  /\ (forall s2,
        streams (env s2) !! source = streams e_written !! source ->
        store_file self source file_info s2
        = finish_store_file self file_info
            (after_block self file_info s2
               (written_env self file_info source (io_data f) s2))
        /\ files (fs (written_env self file_info source (io_data f) s2))
             !! fname = Some (io_data f)).
Proof.
  intros Hsource fname e_written. repeat apply conj.
  - intros dest e He. apply write_file_synchronously_copies_all, He.
  - apply store_file_runs, Hsource.
  - apply written_env_file.
  - apply written_env_source.
  - intros s2 Hretry. subst e_written. rewrite written_env_source in Hretry.
    split.
    + apply (store_file_runs self source file_info s2 (exhausted (io_data f))).
      exact Hretry.
    + apply written_env_file.
Qed.

End StoreFile.

(** The property of C8 on a source that has been read up to its second
    byte. *)
Lemma store_file_rewinds_source_witness :
  store_file (demo_storage NOT_SPAM [accepting_provider "B1"]) 0 local_abc
    state_with_source
  = finish_store_file (demo_storage NOT_SPAM [accepting_provider "B1"]) local_abc
      (after_block (demo_storage NOT_SPAM [accepting_provider "B1"]) local_abc
         state_with_source
         (written_env (demo_storage NOT_SPAM [accepting_provider "B1"])
            local_abc 0 three_bytes state_with_source))
  /\ files (fs (written_env (demo_storage NOT_SPAM [accepting_provider "B1"])
                  local_abc 0 three_bytes state_with_source))
       !! "/media/local_content/abc" = Some three_bytes.
Proof.
  pose proof (store_file_rewinds_source
                (demo_storage NOT_SPAM [accepting_provider "B1"]) 0 local_abc
                state_with_source {| io_data := three_bytes; io_pos := 2 |}
                eq_refl) as (_ & Hrun & Hfile & _).
  split; [exact Hrun | exact Hfile].
Defined.

(** End to end: the payload is stored from a source that is not at its
    start; the file holds the payload and the provider is called once. *)
Example store_file_end_to_end :
  exists s',
    store_file (demo_storage NOT_SPAM [accepting_provider "B1"]) 0 local_abc
      state_with_source
    = (Ok "/media/local_content/abc", s')
    /\ files (fs (env s')) !! "/media/local_content/abc" = Some three_bytes
    /\ List.filter is_provider_call (trace s')
       = [EvStore "B1" "local_content/abc" local_abc].
Proof.
  eexists. split; [|split]; vm_compute; reflexivity.
Qed.

(** ** Looking media up *)

Section Lookup.

Context {Ext : Type}.
Implicit Types (s : @State Ext) (e : @Env Ext) (self : @MediaStorage Ext).

Lemma os_path_exists_run q s :
  os_path_exists q s
  = (Ok (fs_exists q (fs (env s))),
     {| env := env s; trace := trace s ++ [EvExists q] |}).
Proof. reflexivity. Qed.

Lemma fs_exists_lookup q (d : FS) :
  fs_exists q d = match files d !! q with Some _ => true | None => false end.
Proof.
  unfold fs_exists. destruct (files d !! q) as [data|].
  - apply bool_decide_eq_true_2. eexists; reflexivity.
  - apply bool_decide_eq_false_2. intros [data Hdata]. discriminate.
Qed.

Lemma local_loop_run self (paths : list string) s :
  for_return paths
    (fun p =>
       let local_path := os_path_join (local_media_directory self) p in
       let* found := os_path_exists local_path in
       if found then
         let* f := open_rb local_path in
         ret (Some (FileResponder f))
       else ret None) s
  = match first_existing (fs (env s))
            (map (os_path_join (local_media_directory self)) paths) with
    | Some (checked, hit, data) =>
        (Ok (Some (FileResponder {| io_data := data; io_pos := 0 |})),
         {| env := env s;
            trace := trace s ++ map EvExists checked ++ [EvOpen hit rb] |})
    | None =>
        (Ok None,
         {| env := env s;
            trace := trace s
                       ++ map EvExists
                            (map (os_path_join (local_media_directory self)) paths) |})
    end.
Proof.
  revert s. induction paths as [|p rest IH]; intros s.
  - cbn. rewrite app_nil_r, state_eta. reflexivity.
  - cbn [for_return map first_existing]. unfold bind at 1. unfold bind at 1.
    rewrite os_path_exists_run, fs_exists_lookup.
    destruct (files (fs (env s)) !! os_path_join (local_media_directory self) p)
      as [data|] eqn:Hfile.
    + unfold open_rb, bind, log, ret. cbn [env trace fs]. rewrite Hfile.
      cbn [map]. rewrite <- !app_assoc. reflexivity.
    + unfold ret at 1. rewrite IH. cbn [env trace].
      destruct (first_existing (fs (env s))
                  (map (os_path_join (local_media_directory self)) rest))
        as [[[checked hit] data]|]; cbn [map]; rewrite <- !app_assoc; reflexivity.
Qed.

Lemma fetch_on_run provider q file_info s :
  fetch_on provider q file_info s
  = (fst (provider_fetch provider q file_info (env s)),
     {| env := snd (provider_fetch provider q file_info (env s));
        trace := trace s ++ [EvFetch (provider_str provider) q file_info] |}).
Proof.
  unfold fetch_on, bind, log, call. cbn [env trace].
  destruct (provider_fetch provider q file_info (env s)) as [[res|err] e1];
    reflexivity.
Qed.

Lemma first_answer_app file_info plan1 plan2 e :
  first_answer file_info (plan1 ++ plan2) e
  = match first_answer file_info plan1 e with
    | (Ok None, made, e1) =>
        match first_answer file_info plan2 e1 with
        | (res, made2, e2) => (res, made ++ made2, e2)
        end
    | stopped => stopped
    end.
Proof.
  revert e. induction plan1 as [|[provider q] plan1 IH]; intros e.
  - cbn. destruct (first_answer file_info plan2 e) as [[res made] e2]. reflexivity.
  - cbn [app first_answer].
    destruct (provider_fetch provider q file_info e) as [[[r|]|err] e1];
      [reflexivity| |reflexivity].
    rewrite IH.
    destruct (first_answer file_info plan1 e1) as [[[[r|]|err] made] e2];
      [reflexivity| |reflexivity].
    destruct (first_answer file_info plan2 e2) as [[res made2] e3]. reflexivity.
Qed.

Lemma path_loop_run provider (paths : list string) file_info s :
  for_return paths (fun p => fetch_on provider p file_info) s
  = match first_answer file_info (map (pair provider) paths) (env s) with
    | (res, made, e') =>
        (res, {| env := e'; trace := trace s ++ fetch_events file_info made |})
    end.
Proof.
  revert s. induction paths as [|p rest IH]; intros s.
  - cbn. rewrite app_nil_r, state_eta. reflexivity.
  - cbn [for_return map first_answer]. unfold bind at 1.
    rewrite fetch_on_run.
    destruct (provider_fetch provider p file_info (env s)) as [[[r|]|err] e1];
      cbn [fst snd].
    + reflexivity.
    + rewrite IH. cbn [env trace].
      destruct (first_answer file_info (map (pair provider) rest) e1)
        as [[res made] e2].
      cbn [fetch_events map fst snd]. rewrite <- app_assoc. reflexivity.
    + reflexivity.
Qed.

Lemma provider_loop_run (providers : list (@StorageProvider Ext))
    (paths : list string) file_info s :
  for_return providers
    (fun provider => for_return paths (fun p => fetch_on provider p file_info)) s
  = match first_answer file_info (fetch_plan providers paths) (env s) with
    | (res, made, e') =>
        (res, {| env := e'; trace := trace s ++ fetch_events file_info made |})
    end.
Proof.
  revert s. induction providers as [|provider rest IH]; intros s.
  - cbn. rewrite app_nil_r, state_eta. reflexivity.
  - cbn [for_return fetch_plan flat_map]. unfold bind at 1.
    rewrite path_loop_run, first_answer_app.
    destruct (first_answer file_info (map (pair provider) paths) (env s))
      as [[[[r|]|err] made] e1].
    + reflexivity.
    + rewrite IH. cbn [env trace]. fold (fetch_plan rest paths).
      destruct (first_answer file_info (fetch_plan rest paths) e1)
        as [[res made2] e2].
      unfold fetch_events. rewrite map_app, <- app_assoc. reflexivity.
    + reflexivity.
Qed.

Lemma fetch_media_refines self file_info s :
  fetch_media self file_info s = fetch_media_spec self file_info s.
Proof.
  unfold fetch_media, fetch_media_spec. unfold bind at 1.
  change ([_file_info_to_path (filepaths self) file_info]
            ++ option_list (legacy_path (filepaths self) file_info))
    with (candidate_paths self file_info).
  rewrite local_loop_run. fold (local_candidates self file_info).
  destruct (first_existing (fs (env s)) (local_candidates self file_info))
    as [[[checked hit] data]|].
  - reflexivity.
  - rewrite provider_loop_run. cbn [env trace].
    destruct (first_answer file_info
                (fetch_plan (storage_providers self)
                   (candidate_paths self file_info)) (env s))
      as [[res made] e'].
    rewrite <- app_assoc. reflexivity.
Qed.

Lemma first_existing_hit (d : FS) before hit after data :
  Forall (absent d) before ->
  files d !! hit = Some data ->
  first_existing d (before ++ hit :: after) = Some (before ++ [hit], hit, data).
Proof.
  intros Hbefore Hhit. induction Hbefore as [|q before Hq _ IH].
  - cbn. rewrite Hhit. reflexivity.
  - cbn [app first_existing]. unfold absent in Hq. rewrite Hq, IH. reflexivity.
Qed.

Lemma first_existing_none (d : FS) (local_paths : list string) :
  first_existing d local_paths = None <-> Forall (absent d) local_paths.
Proof.
  induction local_paths as [|q rest IH].
  - split; [constructor | reflexivity].
  - cbn [first_existing]. split.
    + destruct (files d !! q) as [data|] eqn:Hq; [discriminate|].
      destruct (first_existing d rest) as [[[checked hit] data]|]; [discriminate|].
      intros _. constructor; [exact Hq | apply IH; reflexivity].
    + intros Hall. inversion Hall as [|? ? Hq Hrest]; subst.
      unfold absent in Hq. rewrite Hq.
      apply IH in Hrest. rewrite Hrest. reflexivity.
Qed.

(** The call at which a plan stops: the calls before it returned nothing,
    and it answers with a responder or raises. *)
Lemma first_answer_stops_at file_info before provider q after e e1 res e2 :
  all_miss file_info before e e1 ->
  provider_fetch provider q file_info e1 = (res, e2) ->
  res <> Ok None ->
  first_answer file_info (before ++ (provider, q) :: after) e
  = (res, before ++ [(provider, q)], e2).
Proof.
  intros Hbefore Hhit Hres.
  induction Hbefore as [e|provider0 q0 rest e e' e1 Hmiss _ IH].
  - cbn. rewrite Hhit. destruct res as [[r|]|err]; [reflexivity| |reflexivity].
    exfalso. apply Hres. reflexivity.
  - cbn [app first_answer]. rewrite Hmiss, (IH Hhit). reflexivity.
Qed.

Lemma first_answer_hit file_info before provider q after e e1 r e2 :
  all_miss file_info before e e1 ->
  provider_fetch provider q file_info e1 = (Ok (Some r), e2) ->
  first_answer file_info (before ++ (provider, q) :: after) e
  = (Ok (Some r), before ++ [(provider, q)], e2).
Proof.
  intros Hbefore Hhit.
  apply (first_answer_stops_at _ _ _ _ _ _ _ _ _ Hbefore Hhit). discriminate.
Qed.

Lemma first_answer_raises file_info before provider q after e e1 err e2 :
  all_miss file_info before e e1 ->
  provider_fetch provider q file_info e1 = (Raise err, e2) ->
  first_answer file_info (before ++ (provider, q) :: after) e
  = (Raise err, before ++ [(provider, q)], e2).
Proof.
  intros Hbefore Hhit.
  apply (first_answer_stops_at _ _ _ _ _ _ _ _ _ Hbefore Hhit). discriminate.
Qed.

Lemma first_answer_none file_info plan e made e' :
  first_answer file_info plan e = (Ok None, made, e') <->
  made = plan /\ all_miss file_info plan e e'.
Proof.
  revert e made. induction plan as [|[provider q] rest IH]; intros e made.
  - cbn. split.
    + intros [= <- <-]. split; [reflexivity | constructor].
    + intros [-> Hmiss]. inversion Hmiss; subst. reflexivity.
  - cbn [first_answer]. split.
    + destruct (provider_fetch provider q file_info e) as [[[r|]|err] e1] eqn:Hfetch;
        [discriminate| |discriminate].
      destruct (first_answer file_info rest e1) as [[res made1] e2] eqn:Hrest.
      intros [= -> <- <-].
      apply IH in Hrest as [-> Hmiss].
      split; [reflexivity | econstructor; eassumption].
    + intros [-> Hmiss].
      inversion Hmiss as [|? ? ? ? e1 ? Hfetch Hrest]; subst.
      rewrite Hfetch.
      assert (Hnone : first_answer file_info rest e1 = (Ok None, rest, e'))
        by (apply IH; split; [reflexivity | exact Hrest]).
      rewrite Hnone. reflexivity.
Qed.

(** A plan that does not end with nothing stopped at one of its calls. *)
Lemma first_answer_stopped file_info plan e res made e' :
  first_answer file_info plan e = (res, made, e') ->
  res <> Ok None ->
  exists before provider q after e1,
    plan = before ++ (provider, q) :: after
    /\ made = before ++ [(provider, q)]
    /\ all_miss file_info before e e1
    /\ provider_fetch provider q file_info e1 = (res, e').
Proof.
  revert e made. induction plan as [|[provider q] rest IH]; intros e made.
  - cbn. intros [= <- _ _] Hres. exfalso. apply Hres. reflexivity.
  - cbn [first_answer].
    destruct (provider_fetch provider q file_info e) as [[[r|]|err] e1] eqn:Hfetch.
    + intros [= <- <- <-] _.
      exists [], provider, q, rest, e. repeat split; [constructor | exact Hfetch].
    + destruct (first_answer file_info rest e1) as [[res1 made1] e2] eqn:Hrest.
      intros [= -> <- ->] Hres.
      destruct (IH e1 made1 Hrest Hres)
        as (before & provider' & q' & after & e3 & -> & -> & Hmiss & Hstop).
      exists ((provider, q) :: before), provider', q', after, e3.
      repeat split; [econstructor; eassumption | exact Hstop].
    + intros [= <- <- <-] _.
      exists [], provider, q, rest, e. repeat split; [constructor | exact Hfetch].
Qed.

(** C3: [fetch_media] builds the candidate list (the resolved path, and
    the legacy path exactly when the descriptor has a thumbnail and a
    server name); it checks the candidates on the local disk in order and
    answers with a [FileResponder] on the first that exists, without calling
    any provider; otherwise it asks the providers in priority order, each
    with every candidate in order, up to the first call that does not
    return nothing: when that call answers with a responder, the responder
    is returned, and when it raises, the exception leaves [fetch_media] and
    the calls after it are not made.  It returns [None] exactly when no
    candidate is on the local disk and every call of every provider
    returned nothing. *)
Theorem fetch_media_local_then_providers self file_info s :
  candidate_paths self file_info
  = resolved_path self file_info
      :: match thumbnail file_info with
         | Some t =>
             if truthy_str (server_name file_info) then
               [remote_media_thumbnail_rel_legacy (filepaths self)
                  (default "" (server_name file_info)) (file_id file_info)
                  (width t) (height t) (type t)]
             else []
         | None => []
         end
  /\ fetch_media self file_info s = fetch_media_spec self file_info s
  /\ (forall before hit after data,
        local_candidates self file_info = before ++ hit :: after ->
        Forall (absent (fs (env s))) before ->
        files (fs (env s)) !! hit = Some data ->
        fetch_media self file_info s
        = (Ok (Some (FileResponder {| io_data := data; io_pos := 0 |})),
           {| env := env s;
              trace := trace s ++ map EvExists (before ++ [hit])
                         ++ [EvOpen hit rb] |}))
  /\ (forall before provider q after e1 r e2,
        Forall (absent (fs (env s))) (local_candidates self file_info) ->
        fetch_plan (storage_providers self) (candidate_paths self file_info)
        = before ++ (provider, q) :: after ->
        all_miss file_info before (env s) e1 ->
        provider_fetch provider q file_info e1 = (Ok (Some r), e2) ->
        fetch_media self file_info s
        = (Ok (Some r),
           {| env := e2;
              trace := trace s
                         ++ map EvExists (local_candidates self file_info)
                         ++ fetch_events file_info (before ++ [(provider, q)]) |}))
  /\ (forall before provider q after e1 err e2,
        Forall (absent (fs (env s))) (local_candidates self file_info) ->
        fetch_plan (storage_providers self) (candidate_paths self file_info)
        = before ++ (provider, q) :: after ->
        all_miss file_info before (env s) e1 ->
        provider_fetch provider q file_info e1 = (Raise err, e2) ->
        fetch_media self file_info s
        = (Raise err,
           {| env := e2;
              trace := trace s
                         ++ map EvExists (local_candidates self file_info)
                         ++ fetch_events file_info (before ++ [(provider, q)]) |}))
  /\ (forall s',
        fetch_media self file_info s = (Ok None, s') <->
        Forall (absent (fs (env s))) (local_candidates self file_info)
        /\ all_miss file_info
             (fetch_plan (storage_providers self)
                (candidate_paths self file_info)) (env s) (env s')
        /\ trace s'
           = trace s ++ map EvExists (local_candidates self file_info)
               ++ fetch_events file_info
                    (fetch_plan (storage_providers self)
                       (candidate_paths self file_info)))
  /\ (forall err s',
        fetch_media self file_info s = (Raise err, s') ->
        Forall (absent (fs (env s))) (local_candidates self file_info)
        /\ exists before provider q after e1,
             fetch_plan (storage_providers self) (candidate_paths self file_info)
             = before ++ (provider, q) :: after
             /\ all_miss file_info before (env s) e1
             /\ provider_fetch provider q file_info e1 = (Raise err, env s')).
Proof.
  split; [|split; [|split; [|split; [|split; [|split]]]]].
  - unfold candidate_paths, legacy_path.
    destruct (thumbnail file_info) as [t|]; [|reflexivity].
    destruct (truthy_str (server_name file_info)); reflexivity.
  - apply fetch_media_refines.
  - intros before hit after data Hsplit Hbefore Hhit.
    rewrite fetch_media_refines. unfold fetch_media_spec.
    rewrite Hsplit, (first_existing_hit _ _ _ _ _ Hbefore Hhit). reflexivity.
  - intros before provider q after e1 r e2 Hlocal Hplan Hmiss Hhit.
    rewrite fetch_media_refines. unfold fetch_media_spec.
    apply first_existing_none in Hlocal. rewrite Hlocal, Hplan.
    rewrite (first_answer_hit _ _ _ _ _ _ _ _ _ Hmiss Hhit). reflexivity.
  - intros before provider q after e1 err e2 Hlocal Hplan Hmiss Hhit.
    rewrite fetch_media_refines. unfold fetch_media_spec.
    apply first_existing_none in Hlocal. rewrite Hlocal, Hplan.
    rewrite (first_answer_raises _ _ _ _ _ _ _ _ _ Hmiss Hhit). reflexivity.
  - intros s'. rewrite fetch_media_refines. unfold fetch_media_spec. split.
    + destruct (first_existing (fs (env s)) (local_candidates self file_info))
        as [[[checked hit] data]|] eqn:Hlocal; [discriminate|].
      destruct (first_answer file_info
                  (fetch_plan (storage_providers self)
                     (candidate_paths self file_info)) (env s))
        as [[res made] e'] eqn:Hanswer.
      intros [= -> <-]. cbn [env trace].
      apply first_answer_none in Hanswer as [-> Hmiss].
      split; [apply first_existing_none, Hlocal | split; [exact Hmiss | reflexivity]].
    + intros (Hlocal & Hmiss & Htrace).
      apply first_existing_none in Hlocal. rewrite Hlocal.
      assert (Hanswer : first_answer file_info
                (fetch_plan (storage_providers self)
                   (candidate_paths self file_info)) (env s)
              = (Ok None, fetch_plan (storage_providers self)
                            (candidate_paths self file_info), env s'))
        by (apply first_answer_none; split; [reflexivity | exact Hmiss]).
      rewrite Hanswer, <- Htrace. destruct s'; reflexivity.
  - intros err s'. rewrite fetch_media_refines. unfold fetch_media_spec.
    destruct (first_existing (fs (env s)) (local_candidates self file_info))
      as [[[checked hit] data]|] eqn:Hlocal; [discriminate|].
    destruct (first_answer file_info
                (fetch_plan (storage_providers self)
                   (candidate_paths self file_info)) (env s))
      as [[res made] e'] eqn:Hanswer.
    intros [= -> <-]. cbn [env].
    split; [apply first_existing_none, Hlocal|].
    destruct (first_answer_stopped _ _ _ _ _ _ Hanswer)
      as (before & provider & q & after & e1 & Hplan & _ & Hmiss & Hstop);
      [discriminate|].
    exists before, provider, q, after, e1. repeat split; assumption.
Qed.

Lemma stream_to_file_run (r : Responder) local_path s :
  try_finally
    (let* f := open_wb local_path in stream_to_file r f)
    (responder_exit r) s
  = (match responder_failure r with
     | None => Ok tt
     | Some err => Raise err
     end,
     {| env := populate local_path r (env s);
        trace := trace s ++ transfer_events local_path r |}).
Proof.
  unfold try_finally, open_wb, stream_to_file, modify_fs, close, responder_exit,
    bind, log, call, ret, populate, transfer_events.
  cbn [env trace name].
  destruct (responder_failure r) as [err|]; cbn [env trace];
    rewrite <- ?app_assoc; reflexivity.
Qed.

Lemma populate_loop_run (providers : list (@StorageProvider Ext)) p local_path
    file_info s :
  for_return providers
    (fun provider =>
       let* res := fetch_on provider p file_info in
       match res with
       | Some responder =>
           try_finally
             (let* f := open_wb local_path in stream_to_file responder f)
             (responder_exit responder) ;;
           ret (Some local_path)
       | None => ret None
       end) s
  = match first_answer file_info
            (map (fun provider => (provider, p)) providers) (env s) with
    | (Ok (Some r), made, e') =>
        (match responder_failure r with
         | None => Ok (Some local_path)
         | Some err => Raise err
         end,
         {| env := populate local_path r e';
            trace := trace s ++ fetch_events file_info made
                       ++ transfer_events local_path r |})
    | (Ok None, made, e') =>
        (Ok None,
         {| env := e'; trace := trace s ++ fetch_events file_info made |})
    | (Raise err, made, e') =>
        (Raise err,
         {| env := e'; trace := trace s ++ fetch_events file_info made |})
    end.
Proof.
  revert s. induction providers as [|provider rest IH]; intros s.
  - cbn. rewrite app_nil_r, state_eta. reflexivity.
  - cbn [for_return map first_answer]. unfold bind at 1. unfold bind at 1.
    rewrite fetch_on_run.
    destruct (provider_fetch provider p file_info (env s)) as [[[r|]|err] e1];
      cbn [fst snd].
    + unfold bind at 1. rewrite stream_to_file_run. cbn [env trace].
      destruct (responder_failure r) as [err|];
        cbn [fetch_events map fst snd]; unfold ret;
        rewrite <- !app_assoc; reflexivity.
    + unfold ret at 1. rewrite IH. cbn [env trace].
      destruct (first_answer file_info
                  (map (fun provider => (provider, p)) rest) e1)
        as [[[[r|]|err] made] e2];
        cbn [fetch_events map fst snd]; rewrite <- !app_assoc; reflexivity.
    + reflexivity.
Qed.

Lemma ensure_from_providers_run self file_info (checked : list string) s :
  (let local_path := resolved_fname self file_info in
   os_makedirs (os_path_dirname local_path) ;;
   let* fetched :=
     for_return (storage_providers self) (fun provider =>
       let* res := fetch_on provider (resolved_path self file_info) file_info in
       match res with
       | Some responder =>
           try_finally
             (let* f := open_wb local_path in stream_to_file responder f)
             (responder_exit responder) ;;
           ret (Some local_path)
       | None => ret None
       end) in
   match fetched with
   | Some found_path => ret found_path
   | None => raise NotFoundError
   end)
    {| env := env s; trace := trace s ++ map EvExists checked |}
  = ensure_from_providers self file_info checked s.
Proof.
  cbn zeta. unfold ensure_from_providers, ensure_plan.
  unfold bind at 1. unfold os_makedirs. rewrite log_run.
  unfold bind at 1. rewrite populate_loop_run. cbn [env trace].
  destruct (first_answer file_info
              (map (fun provider => (provider, resolved_path self file_info))
                 (storage_providers self)) (env s))
    as [[[[r|]|err] made] e']; [destruct (responder_failure r) as [err|]| |];
    unfold ret, raise; rewrite <- !app_assoc; reflexivity.
Qed.

Lemma ensure_refines self file_info s :
  ensure_media_is_in_local_cache self file_info s = ensure_spec self file_info s.
Proof.
  unfold ensure_media_is_in_local_cache, ensure_spec.
  fold (resolved_path self file_info). fold (resolved_fname self file_info).
  unfold bind at 1. rewrite os_path_exists_run.
  destruct (fs_exists (resolved_fname self file_info) (fs (env s))) eqn:Hlocal.
  - reflexivity.
  - destruct (legacy_path (filepaths self) file_info) as [legacy_p|].
    + unfold bind at 1. unfold bind at 1. rewrite os_path_exists_run.
      cbn [env trace].
      destruct (fs_exists (os_path_join (local_media_directory self) legacy_p)
                  (fs (env s))) eqn:Hlegacy.
      * unfold ret. rewrite <- app_assoc. reflexivity.
      * unfold ret at 1. rewrite <- app_assoc.
        apply (ensure_from_providers_run self file_info
                 [resolved_fname self file_info;
                  os_path_join (local_media_directory self) legacy_p] s).
    + unfold bind at 1. unfold ret at 1.
      apply (ensure_from_providers_run self file_info
               [resolved_fname self file_info] s).
Qed.

Lemma ensure_spec_cases self file_info s :
  ensure_spec self file_info s
  = match first_existing (fs (env s)) (local_candidates self file_info) with
    | Some (checked, hit, _) =>
        (Ok hit, {| env := env s; trace := trace s ++ map EvExists checked |})
    | None =>
        ensure_from_providers self file_info (local_candidates self file_info) s
    end.
Proof.
  unfold ensure_spec, local_candidates, candidate_paths.
  cbn [map first_existing]. fold (resolved_fname self file_info).
  rewrite fs_exists_lookup.
  destruct (files (fs (env s)) !! resolved_fname self file_info) as [data|];
    [reflexivity|].
  destruct (legacy_path (filepaths self) file_info) as [legacy_p|];
    unfold option_list; cbn [option_rect map first_existing]; [|reflexivity].
  rewrite fs_exists_lookup.
  destruct (files (fs (env s))
              !! os_path_join (local_media_directory self) legacy_p);
    reflexivity.
Qed.

Lemma populate_file local_path r e :
  files (fs (populate local_path r e)) !! local_path = Some (responder_bytes r).
Proof.
  unfold populate, write, set_fs, fs_write, fs_open_wb. cbn [fs files name].
  rewrite !lookup_insert_eq. reflexivity.
Qed.




(** *** Which paths reach the providers *)

Lemma provider_calls_of_exists (checked : list string) :
  List.filter is_provider_call (map EvExists checked) = [].
Proof. induction checked as [|q rest IH]; [reflexivity | exact IH]. Qed.

Lemma provider_calls_of_fetches file_info
    (made : list (@StorageProvider Ext * string)) :
  List.filter is_provider_call (fetch_events file_info made)
  = fetch_events file_info made.
Proof.
  induction made as [|call rest IH]; [reflexivity|].
  cbn [fetch_events map List.filter is_provider_call].
  f_equal. exact IH.
Qed.

Lemma first_answer_prefix file_info plan e res made e' :
  first_answer file_info plan e = (res, made, e') -> made `prefix_of` plan.
Proof.
  revert e res made e'.
  induction plan as [|[provider q] rest IH]; intros e res made e'.
  - intros [= _ <- _]. exists []. reflexivity.
  - cbn [first_answer].
    destruct (provider_fetch provider q file_info e) as [[[r|]|err] e1].
    + intros [= _ <- _]. exists rest. reflexivity.
    + destruct (first_answer file_info rest e1) as [[res1 made1] e2] eqn:Hrest.
      intros [= _ <- _]. apply IH in Hrest as [k ->].
      exists k. reflexivity.
    + intros [= _ <- _]. exists rest. reflexivity.
Qed.

Lemma provider_calls_of_transfer local_path (r : Responder) :
  List.filter is_provider_call (transfer_events local_path r) = [].
Proof. unfold transfer_events. destruct (responder_failure r); reflexivity. Qed.

Lemma ensure_plan_paths self file_info :
  Forall (fun call => snd call = resolved_path self file_info)
    (ensure_plan self file_info).
Proof.
  unfold ensure_plan. apply Forall_map. apply Forall_true. reflexivity.
Qed.

Lemma fetch_plan_both_paths (providers : list (@StorageProvider Ext)) p legacy_p
    file_info :
  fetch_events file_info (fetch_plan providers [p; legacy_p])
  = flat_map (fun provider =>
                [EvFetch (provider_str provider) p file_info;
                 EvFetch (provider_str provider) legacy_p file_info])
      providers.
Proof.
  induction providers as [|provider rest IH]; [reflexivity|].
  cbn [fetch_plan flat_map map app fetch_events fst snd].
  f_equal. f_equal. exact IH.
Qed.

(** C10: whatever the descriptor, every path that
    [ensure_media_is_in_local_cache] passes to a provider's [fetch] is the
    resolved path: the providers it calls are an initial part of the
    provider list, each with that path, and the legacy path is only looked
    for on the local disk.  [fetch_media] differs: when the descriptor has a
    legacy path and nothing is found, it has asked every provider for the
    resolved path and then for the legacy path. *)
Theorem ensure_fetches_resolved_path_only self file_info s :
  (exists made evs,
     trace (snd (ensure_media_is_in_local_cache self file_info s))
     = trace s ++ evs
     /\ List.filter is_provider_call evs = fetch_events file_info made
     /\ made `prefix_of` ensure_plan self file_info
     /\ Forall (fun call => snd call = resolved_path self file_info) made)
  /\ (forall legacy_p s',
        legacy_path (filepaths self) file_info = Some legacy_p ->
        fetch_media self file_info s = (Ok None, s') ->
        exists evs,
          trace s' = trace s ++ evs
          /\ List.filter is_provider_call evs
             = flat_map (fun provider =>
                           [EvFetch (provider_str provider)
                              (resolved_path self file_info) file_info;
                            EvFetch (provider_str provider) legacy_p file_info])
                 (storage_providers self)).
Proof.
  split.
  - rewrite ensure_refines, ensure_spec_cases.
    destruct (first_existing (fs (env s)) (local_candidates self file_info))
      as [[[checked hit] data]|].
    + exists [], (map EvExists checked). cbn [snd trace].
      repeat split.
      * apply provider_calls_of_exists.
      * exists (ensure_plan self file_info). reflexivity.
      * constructor.
    + unfold ensure_from_providers.
      destruct (first_answer file_info (ensure_plan self file_info) (env s))
        as [[res made] e'] eqn:Hanswer.
      pose proof (first_answer_prefix _ _ _ _ _ _ Hanswer) as Hprefix.
      assert (Hpaths : Forall (fun call => snd call = resolved_path self file_info)
                         made).
      { destruct Hprefix as [k Hk].
        pose proof (ensure_plan_paths self file_info) as Hall.
        rewrite Hk in Hall. apply Forall_app in Hall. apply Hall. }
      destruct res as [[r|]|err]; cbn [snd trace].
      * exists made. eexists. split; [reflexivity|]. repeat split; try assumption.
        rewrite !List.filter_app, provider_calls_of_exists,
          provider_calls_of_fetches, provider_calls_of_transfer.
        cbn. apply app_nil_r.
      * exists made. eexists. split; [reflexivity|]. repeat split; try assumption.
        rewrite !List.filter_app, provider_calls_of_exists,
          provider_calls_of_fetches.
        reflexivity.
      * exists made. eexists. split; [reflexivity|]. repeat split; try assumption.
        rewrite !List.filter_app, provider_calls_of_exists,
          provider_calls_of_fetches.
        reflexivity.
  - intros legacy_p s' Hlegacy Hnone.
    rewrite fetch_media_refines in Hnone. unfold fetch_media_spec in Hnone.
    destruct (first_existing (fs (env s)) (local_candidates self file_info))
      as [[[checked hit] data]|]; [discriminate|].
    destruct (first_answer file_info
                (fetch_plan (storage_providers self)
                   (candidate_paths self file_info)) (env s))
      as [[res made] e'] eqn:Hanswer.
    injection Hnone as -> <-.
    apply first_answer_none in Hanswer as [-> _].
    exists (map EvExists (local_candidates self file_info)
              ++ fetch_events file_info
                   (fetch_plan (storage_providers self)
                      (candidate_paths self file_info))).
    split; [reflexivity|].
    rewrite List.filter_app, provider_calls_of_exists, provider_calls_of_fetches.
    unfold candidate_paths. rewrite Hlegacy.
    apply fetch_plan_both_paths.
Qed.

End Lookup.

(** ** The lookups on the small deployment *)

(** Read precedence: the file is on the local disk and a provider holds a
    copy; the local file is answered and no provider is called. *)
Example fetch_media_prefers_local_file :
  fetch_media
    (demo_storage NOT_SPAM [holding_provider "B1" "local_content/abc" old_bytes])
    local_abc (state_with_file "/media/local_content/abc" three_bytes)
  = (Ok (Some (FileResponder {| io_data := three_bytes; io_pos := 0 |})),
     {| env := env (state_with_file "/media/local_content/abc" three_bytes);
        trace := [EvExists "/media/local_content/abc";
                  EvOpen "/media/local_content/abc" rb] |}).
Proof. vm_compute. reflexivity. Qed.

(** Legacy fallback: only the legacy path of a remote thumbnail is on the
    local disk. *)
Example fetch_media_falls_back_to_legacy_path :
  fetch_media (demo_storage NOT_SPAM [accepting_provider "B1"]) remote_thumb
    (state_with_file "/media/remote_thumbnail/example.org/abc/image/png"
       three_bytes)
  = (Ok (Some (FileResponder {| io_data := three_bytes; io_pos := 0 |})),
     {| env := env (state_with_file
                      "/media/remote_thumbnail/example.org/abc/image/png"
                      three_bytes);
        trace := [EvExists "/media/remote_thumbnail/example.org/abc/image/png-crop";
                  EvExists "/media/remote_thumbnail/example.org/abc/image/png";
                  EvOpen "/media/remote_thumbnail/example.org/abc/image/png" rb] |}).
Proof. vm_compute. reflexivity. Qed.

Example ensure_falls_back_to_legacy_path :
  fst (ensure_media_is_in_local_cache
         (demo_storage NOT_SPAM [accepting_provider "B1"]) remote_thumb
         (state_with_file "/media/remote_thumbnail/example.org/abc/image/png"
            three_bytes))
  = Ok "/media/remote_thumbnail/example.org/abc/image/png".
Proof. vm_compute. reflexivity. Qed.

Example ensure_populates_from_second_provider :
  fst (ensure_media_is_in_local_cache second_provider_holds local_abc empty_state)
  = Ok "/media/local_content/abc"
  /\ files (fs (env (snd (ensure_media_is_in_local_cache second_provider_holds
                            local_abc empty_state)))) !! "/media/local_content/abc"
     = Some three_bytes
  /\ trace (snd (ensure_media_is_in_local_cache second_provider_holds
                   local_abc empty_state))
     = [EvExists "/media/local_content/abc";
        EvMakedirs "/media/local_content";
        EvFetch "B1" "local_content/abc" local_abc;
        EvFetch "B2" "local_content/abc" local_abc;
        EvOpen "/media/local_content/abc" wb;
        EvClose "/media/local_content/abc";
        EvRelease (ProviderResponder three_bytes)]
  /\ (let populated :=
        env (snd (ensure_media_is_in_local_cache second_provider_holds
                    local_abc empty_state)) in
      ensure_media_is_in_local_cache second_provider_holds local_abc
        {| env := populated; trace := [] |}
      = (Ok "/media/local_content/abc",
         {| env := populated; trace := [EvExists "/media/local_content/abc"] |})).
Proof.
  split; [|split; [|split]]; vm_compute; reflexivity.
Qed.

Example ensure_raises_not_found :
  fst (ensure_media_is_in_local_cache
         (demo_storage NOT_SPAM [accepting_provider "B1"]) local_abc empty_state)
  = Raise NotFoundError.
Proof. vm_compute. reflexivity. Qed.

(** A provider holds the object under the legacy path only:
    [fetch_media] finds it, [ensure_media_is_in_local_cache] does not ask
    for it. *)
Example legacy_path_on_a_provider :
  fst (fetch_media
         (demo_storage NOT_SPAM
            [holding_provider "B1" "remote_thumbnail/example.org/abc/image/png"
               three_bytes])
         remote_thumb empty_state)
  = Ok (Some (ProviderResponder three_bytes))
  /\ ensure_media_is_in_local_cache
       (demo_storage NOT_SPAM
          [holding_provider "B1" "remote_thumbnail/example.org/abc/image/png"
             three_bytes])
       remote_thumb empty_state
     = (Raise NotFoundError,
        {| env := env empty_state;
           trace := [EvExists "/media/remote_thumbnail/example.org/abc/image/png-crop";
                     EvExists "/media/remote_thumbnail/example.org/abc/image/png";
                     EvMakedirs "/media/remote_thumbnail/example.org/abc/image";
                     EvFetch "B1" "remote_thumbnail/example.org/abc/image/png-crop"
                       remote_thumb] |}).
Proof. split; vm_compute; reflexivity. Qed.

(** Rejection: the checker rejects, the deletion is allowed. *)
Example store_file_rejected :
  let outcome :=
    store_file (demo_storage (Rejected "M_FORBIDDEN" []) [accepting_provider "B1"])
      0 local_abc state_with_source in
  fst outcome = Raise (SpamMediaException "M_FORBIDDEN")
  /\ files (fs (env (snd outcome))) !! "/media/local_content/abc" = None
  /\ List.filter is_provider_call (trace (snd outcome)) = [].
Proof. split; [|split]; vm_compute; reflexivity. Qed.

(** A provider fails after another has stored: the local file is removed
    and the provider's exception reaches the caller. *)
Example store_file_provider_failure :
  let outcome :=
    store_file
      (demo_storage NOT_SPAM [accepting_provider "B1"; failing_provider "B2"])
      0 local_abc state_with_source in
  fst outcome = Raise (ProviderError "unreachable")
  /\ files (fs (env (snd outcome))) !! "/media/local_content/abc" = None
  /\ List.filter is_provider_call (trace (snd outcome))
     = [EvStore "B1" "local_content/abc" local_abc;
        EvStore "B2" "local_content/abc" local_abc].
Proof. split; [|split]; vm_compute; reflexivity. Qed.

(** C3 does not hold as it is stated: the first provider cannot be
    reached and the second holds the object; [fetch_media] does not return
    the second provider's answer, the exception of the first leaves it and
    the second is never asked. *)
Lemma fetch_media_stops_at_failing_fetch :
  fetch_media
    (demo_storage NOT_SPAM
       [offline_provider "B1";
        holding_provider "B2" "local_content/abc" three_bytes])
    local_abc empty_state
  = (Raise (ProviderError "offline"),
     {| env := env empty_state;
        trace := [EvExists "/media/local_content/abc";
                  EvFetch "B1" "local_content/abc" local_abc] |}).
Proof. vm_compute. reflexivity. Qed.


(** The connection is lost after one byte: the exception leaves
    [ensure_media_is_in_local_cache], the byte stays in the local file, and
    the next call returns the path of that file without asking anyone. *)
Example ensure_leaves_partial_file :
  let storage :=
    demo_storage NOT_SPAM
      [breaking_provider "B1" "local_content/abc" [x01%byte]] in
  let outcome := ensure_media_is_in_local_cache storage local_abc empty_state in
  fst outcome = Raise (ProviderError "connection lost")
  /\ files (fs (env (snd outcome))) !! "/media/local_content/abc"
     = Some [x01%byte]
  /\ trace (snd outcome)
     = [EvExists "/media/local_content/abc";
        EvMakedirs "/media/local_content";
        EvFetch "B1" "local_content/abc" local_abc;
        EvOpen "/media/local_content/abc" wb;
        EvRelease (InterruptedResponder [x01%byte]
                     (ProviderError "connection lost"))]
  /\ ensure_media_is_in_local_cache storage local_abc
       {| env := env (snd outcome); trace := [] |}
     = (Ok "/media/local_content/abc",
        {| env := env (snd outcome);
           trace := [EvExists "/media/local_content/abc"] |}).
Proof. cbv zeta. split; [|split; [|split]]; vm_compute; reflexivity. Qed.

(** One byte more than a chunk: two callbacks, of a full chunk and of one
    byte, each followed by a sleep. *)
Example write_chunks_to_two_chunks :
  option_map (fun outcome => callback_sizes (trace (snd outcome)))
    (write_chunks_to 3 {| rfw_clock := TheClock; path := "/media/a" |} looking
       (state_with_file "/media/a" (replicate (CHUNK_SIZE + 1) x00%byte)))
  = Some [None; Some CHUNK_SIZE; None; Some 1; None; None].
Proof. vm_compute. reflexivity. Qed.

(** The reads see what the callback does to the file: when the first
    callback cuts the file down, the second read finds nothing and the
    rest of the three chunks is never delivered. *)
Example write_chunks_to_truncating_callback :
  option_map (fun outcome => (fst outcome, callback_sizes (trace (snd outcome))))
    (write_chunks_to 4 {| rfw_clock := TheClock; path := "/media/a" |}
       (truncating "/media/a") (state_with_file "/media/a" long_file))
  = Some (Ok tt, [None; Some CHUNK_SIZE; None; None]).
Proof. vm_compute. reflexivity. Qed.

(** A callback that raises: the exception leaves the loop before the
    sleep, and the file is closed. *)
Example write_chunks_to_refusing_callback :
  write_chunks_to 4 {| rfw_clock := TheClock; path := "/media/a" |} refusing
    (state_with_file "/media/a" three_bytes)
  = Some (Raise (ValueError "refused"),
          {| env := env (state_with_file "/media/a" three_bytes);
             trace := [EvOpen "/media/a" rb; EvCallback three_bytes;
                       EvClose "/media/a"] |}).
Proof. vm_compute. reflexivity. Qed.

(** A callback that adds to the file it is fed from keeps the loop going:
    no number of turns suffices. *)
Lemma appending_loop_never_ends (turns : nat) p pos (s : @State unit)
    (data : list byte) :
  files (fs (env s)) !! p = Some data ->
  pos < length data ->
  write_chunks_loop turns {| reader_path := p; reader_pos := pos |}
    (appending p) s = None.
Proof.
  revert pos s data.
  induction turns as [|turns IH]; intros pos s data Hfile Hpos; [reflexivity|].
  cbn [write_chunks_loop]. unfold reader_read.
  cbn [reader_path reader_pos]. rewrite Hfile. cbn [default from_option id].
  pose proof (@CHUNK_SIZE_pos) as Hchunk.
  destruct (take CHUNK_SIZE (drop pos data)) as [|b chunk] eqn:Htake.
  - exfalso. apply (f_equal length) in Htake.
    rewrite length_take, length_drop in Htake. cbn [length] in Htake. lia.
  - assert (Hlen : length (b :: chunk) <= length data - pos).
    { rewrite <- Htake, length_take, length_drop. lia. }
    rewrite (callback_turn (appending p) (b :: chunk) s
               (write {| name := p |} [x00%byte] (env s)) eq_refl).
    apply (IH _ _ (data ++ [x00%byte])).
    + cbn [env]. unfold write, set_fs, fs_write. cbn [fs files name].
      rewrite lookup_insert_eq, Hfile. reflexivity.
    + rewrite length_app. cbn [length]. cbn [length] in Hlen. lia.
Qed.

Example write_chunks_to_appending_callback (turns : nat) :
  write_chunks_to turns {| rfw_clock := TheClock; path := "/media/a" |}
    (appending "/media/a") (state_with_file "/media/a" three_bytes)
  = None.
Proof.
  unfold write_chunks_to, open_reader. unfold bind at 1. rewrite log_run.
  cbn [env fs files state_with_file trace path].
  rewrite lookup_singleton_eq.
  rewrite (appending_loop_never_ends turns "/media/a" 0 _ three_bytes);
    [reflexivity | apply lookup_singleton_eq | simpl; lia].
Qed.

(** * Further properties of the coordinator *)

(** ** The chunked reader at its edges *)

Section ChunkCount.

Context {Ext : Type}.
Implicit Types s : @State Ext.








(** When there is no file at the path, [write_chunks_to] raises the
    error of the open; the callback is not called and nothing else
    happens. *)
Lemma write_chunks_to_missing_file (self : ReadableFileWrapper)
    (callback : list byte -> @Env Ext -> Result unit * Env) s (turns : nat) :
  files (fs (env s)) !! path self = None ->
  write_chunks_to turns self callback s
  = Some (Raise (OSError FileNotFoundError (path self)),
          {| env := env s; trace := trace s ++ [EvOpen (path self) rb] |}).
Proof.
  intros Hfile. unfold write_chunks_to, open_reader.
  unfold bind at 1. rewrite log_run.
  cbn [env fs trace]. rewrite Hfile. reflexivity.
Qed.

End ChunkCount.


(** Three callbacks for the file of two full chunks and three bytes, and
    none on an empty disk. *)
Example long_file_chunk_count :
  (length long_file + CHUNK_SIZE - 1) / CHUNK_SIZE = 3.
Proof. vm_compute. reflexivity. Qed.

Example write_chunks_to_missing_file_example :
  option_map fst
    (write_chunks_to 1 {| rfw_clock := TheClock; path := "/media/a" |}
       looking empty_state)
  = Some (Raise (OSError FileNotFoundError "/media/a")).
Proof. reflexivity. Qed.

(** ** What a store leaves behind *)

Section StoreOutcome.

Context {Ext : Type}.
Implicit Types (s : @State Ext) (e : @Env Ext) (self : @MediaStorage Ext).

Lemma stored_in_order_keeps_files (providers : list (@StorageProvider Ext))
    p file_info e e' :
  Forall store_keeps_files providers ->
  stored_in_order p file_info providers e e' ->
  fs e' = fs e.
Proof.
  intros Hkeep Horder. induction Horder as [e|provider rest e e1 e2 Hstore _ IH].
  - reflexivity.
  - inversion Hkeep as [|? ? Hprovider Hrest]; subst.
    rewrite (IH Hrest). specialize (Hprovider p file_info e).
    rewrite Hstore in Hprovider. exact Hprovider.
Qed.

Lemma written_env_other_files self file_info source data s q :
  q <> resolved_fname self file_info ->
  files (fs (written_env self file_info source data s)) !! q
  = files (fs (env s)) !! q.
Proof.
  intros Hq.
  unfold written_env, write, at_yield, set_stream, set_fs, fs_write, fs_open_wb.
  cbn [fs files env name].
  rewrite !lookup_insert_ne by (intros Heq; apply Hq; symmetry; exact Heq).
  reflexivity.
Qed.

(** The local files after a [store_file] that succeeded, when neither the
    checker nor the providers touch the media directory. *)
Lemma store_file_success_files self source file_info s f fname s1 :
  streams (env s) !! source = Some f ->
  check_keeps_files (_spam_checker_module_callbacks self) ->
  Forall store_keeps_files (storage_providers self) ->
  store_file self source file_info s = (Ok fname, s1) ->
  fname = resolved_fname self file_info
  /\ fs (env s1)
     = fs (written_env self file_info source (io_data f) s).
Proof.
  intros Hsource Hcheck_keeps Hstore_keeps Hrun.
  unfold store_file in Hrun. unfold bind at 1 in Hrun.
  destruct (store_into_file_cases self file_info
              (fun '(f0, _) => write_to_file source f0) s)
    as [(err & s_fail & Hraised)
       | (e3 & e4 & s' & Hblock & Hcheck & Hstores & Hok)].
  - rewrite (store_into_file_reraises _ _ _ _ _ _ Hraised) in Hrun. discriminate.
  - rewrite Hok in Hrun. injection Hrun as <- <-.
    split; [reflexivity|].
    apply for_each_store_ok in Hstores as [_ Horder].
    rewrite (stored_in_order_keeps_files _ _ _ _ _ Hstore_keeps Horder).
    cbn [after_check env].
    pose proof (Hcheck_keeps
                  {| rfw_clock := clock self;
                     path := resolved_fname self file_info |} file_info e3)
      as Hkept.
    rewrite Hcheck in Hkept. cbn [snd] in Hkept. rewrite Hkept.
    unfold write_to_file in Hblock.
    rewrite (write_file_synchronously_copies_all source
               {| name := resolved_fname self file_info |}
               (env (at_yield self file_info s)) f Hsource) in Hblock.
    injection Hblock as <-. reflexivity.
Qed.

(** X2: when the spam checker and the providers leave the media directory
    alone, a [store_file] that succeeds returns the resolved absolute path,
    the file at that path holds exactly the bytes of the source, and no
    other local file has changed. *)
Theorem store_file_leaves_source_bytes self source file_info s f fname s1 :
  streams (env s) !! source = Some f ->
  check_keeps_files (_spam_checker_module_callbacks self) ->
  Forall store_keeps_files (storage_providers self) ->
  store_file self source file_info s = (Ok fname, s1) ->
  fname = os_path_join (local_media_directory self)
            (_file_info_to_path (filepaths self) file_info)
  /\ files (fs (env s1)) !! fname = Some (io_data f)
  /\ (forall q, q <> fname -> files (fs (env s1)) !! q = files (fs (env s)) !! q).
Proof.
  intros Hsource Hcheck Hstores Hrun.
  destruct (store_file_success_files _ _ _ _ _ _ _ Hsource Hcheck Hstores Hrun)
    as [-> Hfs].
  split; [reflexivity|]. rewrite Hfs. split.
  - apply written_env_file.
  - intros q Hq. apply written_env_other_files, Hq.
Qed.

Lemma local_candidates_head self file_info :
  local_candidates self file_info
  = resolved_fname self file_info
      :: map (os_path_join (local_media_directory self))
           (option_list (legacy_path (filepaths self) file_info)).
Proof. reflexivity. Qed.

Lemma first_existing_primary self file_info (d : FS) data :
  files d !! resolved_fname self file_info = Some data ->
  first_existing d (local_candidates self file_info)
  = Some ([resolved_fname self file_info], resolved_fname self file_info, data).
Proof.
  intros Hfile. rewrite local_candidates_head. cbn [first_existing].
  rewrite Hfile. reflexivity.
Qed.

(** X3: store and look up.  Under the same conditions, after a
    [store_file] that succeeded, [fetch_media] for the same descriptor
    answers with the local file, which reads as the bytes of the source, and
    [ensure_media_is_in_local_cache] returns the path that [store_file]
    returned; neither asks a provider. *)
Theorem store_file_then_lookup self source file_info s f fname s1 :
  streams (env s) !! source = Some f ->
  check_keeps_files (_spam_checker_module_callbacks self) ->
  Forall store_keeps_files (storage_providers self) ->
  store_file self source file_info s = (Ok fname, s1) ->
  fetch_media self file_info s1
  = (Ok (Some (FileResponder {| io_data := io_data f; io_pos := 0 |})),
     {| env := env s1;
        trace := trace s1 ++ [EvExists fname; EvOpen fname rb] |})
  /\ responder_bytes (FileResponder {| io_data := io_data f; io_pos := 0 |})
     = io_data f
  /\ ensure_media_is_in_local_cache self file_info s1
     = (Ok fname, {| env := env s1; trace := trace s1 ++ [EvExists fname] |}).
Proof.
  intros Hsource Hcheck Hstores Hrun.
  destruct (store_file_success_files _ _ _ _ _ _ _ Hsource Hcheck Hstores Hrun)
    as [-> Hfs].
  assert (Hfile : files (fs (env s1)) !! resolved_fname self file_info
                  = Some (io_data f))
    by (rewrite Hfs; apply written_env_file).
  split; [|split].
  - rewrite fetch_media_refines. unfold fetch_media_spec.
    rewrite (first_existing_primary _ _ _ _ Hfile). reflexivity.
  - unfold responder_bytes, io_read_all, io_read. cbn [io_data io_pos fst].
    rewrite drop_0. apply firstn_all.
  - rewrite ensure_refines, ensure_spec_cases.
    rewrite (first_existing_primary _ _ _ _ Hfile). reflexivity.
Qed.

(** X4: when a provider's [store_file] raises, the providers before it
    have been called in order and what they did stays, the providers after
    it are never called, [os.remove] is called on the local file and the
    provider's exception reaches the caller. *)
Theorem store_into_file_stops_at_failing_provider self file_info block s
    e3 e4 done failing rest e5 err e6 :
  block ({| name := resolved_fname self file_info |},
         resolved_fname self file_info) (env (at_yield self file_info s))
  = (Ok tt, e3) ->
  check_media_file_for_spam (_spam_checker_module_callbacks self)
    {| rfw_clock := clock self; path := resolved_fname self file_info |}
    file_info e3 = (Ok NOT_SPAM, e4) ->
  storage_providers self = done ++ failing :: rest ->
  stored_in_order (resolved_path self file_info) file_info done e4 e5 ->
  provider_store_file failing (resolved_path self file_info) file_info e5
  = (Raise err, e6) ->
  let fname := resolved_fname self file_info in
  exists s_end,
    store_into_file self file_info block s = (Raise err, s_end)
    /\ List.filter is_provider_call (drop (length (trace s)) (trace s_end))
       = store_events (resolved_path self file_info) file_info
           (done ++ [failing])
    /\ last (trace s_end) = Some (EvRemove fname)
    /\ ext (env s_end) = ext e6
    /\ (fname ∉ undeletable (fs e6) -> files (fs (env s_end)) !! fname = None).
Proof.
  intros Hblock Hcheck Hproviders Hdone Hfail fname.
  eexists. split.
  - apply store_into_file_reraises.
    eapply raised_by_store; eassumption.
  - split; [|split; [|split]].
    + unfold after_remove. cbn [trace]. rewrite trace_after_check.
      rewrite <- !app_assoc, drop_app_length.
      rewrite !List.filter_app. cbn [List.filter is_provider_call app].
      rewrite app_nil_r.
      unfold store_events.
      generalize (done ++ [failing]). intros l.
      induction l as [|x l IH]; [reflexivity|].
      cbn [map List.filter is_provider_call]. f_equal. exact IH.
    + unfold after_remove. cbn [trace]. apply last_snoc.
    + unfold after_remove. cbn [env trace].
      destruct (fs_remove (resolved_fname self file_info) (fs e6)); reflexivity.
    + intros Hdel. apply after_remove_absent. exact Hdel.
Qed.

(** X5: when the caller's block raises, the upload is never shown to the
    spam checker and never replicated: after the file is closed the only
    call left is [os.remove]. *)
Theorem store_into_file_block_failure_skips_check self file_info block s err e3 :
  block ({| name := resolved_fname self file_info |},
         resolved_fname self file_info) (env (at_yield self file_info s))
  = (Raise err, e3) ->
  let fname := resolved_fname self file_info in
  exists s_end,
    store_into_file self file_info block s = (Raise err, s_end)
    /\ trace s_end
       = trace s ++ [EvMakedirs (os_path_dirname fname); EvOpen fname wb;
                     EvYield fname; EvClose fname; EvRemove fname]
    /\ ext (env s_end) = ext e3.
Proof.
  intros Hblock fname. eexists. split; [|split].
  - rewrite store_into_file_enters. apply resume_block_raises, Hblock.
  - unfold after_remove, after_block, at_yield. cbn [trace].
    rewrite <- !app_assoc. reflexivity.
  - unfold after_remove, after_block. cbn [env].
    destruct (fs_remove (resolved_fname self file_info) (fs e3)); reflexivity.
Qed.

End StoreOutcome.

(** ** Lookups: what they change and how they compose *)

Section LookupOutcome.

Context {Ext : Type}.
Implicit Types (s : @State Ext) (e : @Env Ext) (self : @MediaStorage Ext).

Lemma first_answer_keeps_files file_info
    (plan : list (@StorageProvider Ext * string)) e res made e' :
  Forall (fun call => fetch_keeps_files (fst call)) plan ->
  first_answer file_info plan e = (res, made, e') ->
  fs e' = fs e.
Proof.
  intros Hkeep. revert e res made e'.
  induction Hkeep as [|[provider q] rest Hprovider _ IH]; intros e res made e'.
  - intros [= _ _ <-]. reflexivity.
  - cbn [first_answer]. cbn [fst] in Hprovider.
    specialize (Hprovider q file_info e).
    destruct (provider_fetch provider q file_info e) as [[[r|]|err] e1];
      cbn [snd] in Hprovider.
    + intros [= _ _ <-]. exact Hprovider.
    + destruct (first_answer file_info rest e1) as [[res1 made1] e2] eqn:Hrest.
      intros [= _ _ <-]. rewrite (IH _ _ _ _ Hrest). exact Hprovider.
    + intros [= _ _ <-]. exact Hprovider.
Qed.

Lemma fetch_plan_keeps_files (providers : list (@StorageProvider Ext))
    (paths : list string) :
  Forall fetch_keeps_files providers ->
  Forall (fun call => fetch_keeps_files (fst call)) (fetch_plan providers paths).
Proof.
  intros Hkeep. induction Hkeep as [|provider rest Hprovider _ IH].
  - constructor.
  - cbn [fetch_plan flat_map]. apply Forall_app. split; [|exact IH].
    apply Forall_map. apply Forall_true. intros q. exact Hprovider.
Qed.

Lemma ensure_plan_keeps_files self file_info :
  Forall fetch_keeps_files (storage_providers self) ->
  Forall (fun call => fetch_keeps_files (fst call)) (ensure_plan self file_info).
Proof.
  intros Hkeep. unfold ensure_plan. apply Forall_map.
  eapply Forall_impl; [exact Hkeep|]. intros provider Hprovider. exact Hprovider.
Qed.

(** X6: [fetch_media] only reads: when no provider's [fetch] touches the
    media directory, the local files are the same after the call as before
    it, whatever it returns, and apart from the providers' fetches it calls
    nothing but [os.path.exists] and one [open] for reading. *)
Theorem fetch_media_keeps_files self file_info s :
  Forall fetch_keeps_files (storage_providers self) ->
  fs (env (snd (fetch_media self file_info s))) = fs (env s)
  /\ exists evs,
       trace (snd (fetch_media self file_info s)) = trace s ++ evs
       /\ Forall (fun ev =>
                    match ev with
                    | EvExists _ | EvOpen _ rb | EvFetch _ _ _ => True
                    | _ => False
                    end) evs.
Proof.
  intros Hkeep. rewrite fetch_media_refines. unfold fetch_media_spec.
  destruct (first_existing (fs (env s)) (local_candidates self file_info))
    as [[[checked hit] data]|].
  - cbn [snd env trace]. split; [reflexivity|].
    eexists. split; [reflexivity|].
    apply Forall_app. split.
    + apply Forall_map, Forall_true. intros q. exact I.
    + repeat constructor.
  - destruct (first_answer file_info
                (fetch_plan (storage_providers self)
                   (candidate_paths self file_info)) (env s))
      as [[res made] e'] eqn:Hanswer.
    cbn [snd env trace]. split.
    + eapply first_answer_keeps_files; [|exact Hanswer].
      apply fetch_plan_keeps_files, Hkeep.
    + eexists. split; [reflexivity|].
      apply Forall_app. split.
      * apply Forall_map, Forall_true. intros q. exact I.
      * unfold fetch_events. apply Forall_map, Forall_true. intros call. exact I.
Qed.

Lemma populate_other_files local_path (r : Responder) e q :
  q <> local_path ->
  files (fs (populate local_path r e)) !! q = files (fs e) !! q.
Proof.
  intros Hq. unfold populate, write, set_fs, fs_write, fs_open_wb.
  cbn [fs files name].
  rewrite !lookup_insert_ne by (intros Heq; apply Hq; symmetry; exact Heq).
  reflexivity.
Qed.

(** X7: [ensure_media_is_in_local_cache] writes to the primary local path
    at most: when no provider's [fetch] touches the media directory, every
    other local file is the same after the call as before it.  When the
    call raises, either no local file has changed at all (a miss leaves no
    empty file behind), or the transfer of a responder broke off with that
    exception: then the responder has been released last of all, and what
    it had delivered is left in the primary local path, which is not
    removed. *)
Theorem ensure_changes_primary_path_only self file_info s :
  Forall fetch_keeps_files (storage_providers self) ->
  (forall q,
     q <> resolved_fname self file_info ->
     files (fs (env (snd (ensure_media_is_in_local_cache self file_info s)))) !! q
     = files (fs (env s)) !! q)
  /\ (forall err s',
        ensure_media_is_in_local_cache self file_info s = (Raise err, s') ->
        fs (env s') = fs (env s)
        \/ exists r,
             responder_failure r = Some err
             /\ files (fs (env s')) !! resolved_fname self file_info
                = Some (responder_bytes r)
             /\ last (trace s') = Some (EvRelease r)).
Proof.
  intros Hkeep. rewrite ensure_refines, ensure_spec_cases.
  destruct (first_existing (fs (env s)) (local_candidates self file_info))
    as [[[checked hit] data]|].
  - split; [reflexivity | discriminate].
  - unfold ensure_from_providers.
    destruct (first_answer file_info (ensure_plan self file_info) (env s))
      as [[[[r|]|err0] made] e'] eqn:Hanswer;
      pose proof (first_answer_keeps_files _ _ _ _ _ _
                    (ensure_plan_keeps_files self file_info Hkeep) Hanswer)
        as Hfs.
    + split.
      * intros q Hq. cbn [snd env].
        rewrite populate_other_files by exact Hq. rewrite Hfs. reflexivity.
      * intros err s'.
        destruct (responder_failure r) as [err1|] eqn:Hbreaks; [|discriminate].
        intros [= -> <-]. right. exists r. cbn [env trace].
        split; [exact Hbreaks | split; [apply populate_file|]].
        unfold transfer_events. rewrite Hbreaks.
        repeat first [rewrite last_app | rewrite last_cons]. reflexivity.
    + split.
      * intros q _. cbn [snd env]. rewrite Hfs. reflexivity.
      * intros err s' [= _ <-]. left. exact Hfs.
    + split.
      * intros q _. cbn [snd env]. rewrite Hfs. reflexivity.
      * intros err s' [= _ <-]. left. exact Hfs.
Qed.

(** X8: a second [ensure_media_is_in_local_cache] right after one that
    returned a path returns the same path, asks no provider and changes
    nothing: it only checks the local disk. *)
Theorem ensure_twice_asks_no_provider self file_info s p s' :
  ensure_media_is_in_local_cache self file_info s = (Ok p, s') ->
  exists checked,
    ensure_media_is_in_local_cache self file_info s'
    = (Ok p, {| env := env s'; trace := trace s' ++ map EvExists checked |}).
Proof.
  rewrite !ensure_refines, !ensure_spec_cases.
  destruct (first_existing (fs (env s)) (local_candidates self file_info))
    as [[[checked hit] data]|] eqn:Hlocal.
  - intros [= <- <-]. cbn [env]. rewrite Hlocal.
    exists checked. reflexivity.
  - unfold ensure_from_providers.
    destruct (first_answer file_info (ensure_plan self file_info) (env s))
      as [[[[r|]|err] made] e'] eqn:Hanswer; [|discriminate|discriminate].
    destruct (responder_failure r) as [err|]; [discriminate|].
    intros [= <- <-]. cbn [env].
    rewrite (first_existing_primary self file_info _ (responder_bytes r))
      by apply populate_file.
    exists [resolved_fname self file_info]. reflexivity.
Qed.

(** The file on which the first existing candidate was found. *)
Lemma first_existing_file (d : FS) (local_paths : list string) checked hit data :
  first_existing d local_paths = Some (checked, hit, data) ->
  files d !! hit = Some data.
Proof.
  revert checked. induction local_paths as [|q rest IH]; intros checked.
  - discriminate.
  - cbn [first_existing]. destruct (files d !! q) as [found|] eqn:Hq.
    + intros [= _ <- <-]. exact Hq.
    + destruct (first_existing d rest) as [[[checked1 hit1] data1]|];
        [|discriminate].
      intros [= _ <- <-]. apply (IH checked1). reflexivity.
Qed.

(** X9: populate, then serve.  Whatever path
    [ensure_media_is_in_local_cache] has returned, a [fetch_media] for the
    same descriptor right after it answers with the file at that path,
    without asking any provider. *)
Theorem ensure_then_fetch_serves_local_file self file_info s p s' :
  ensure_media_is_in_local_cache self file_info s = (Ok p, s') ->
  exists checked data,
    files (fs (env s')) !! p = Some data
    /\ fetch_media self file_info s'
       = (Ok (Some (FileResponder {| io_data := data; io_pos := 0 |})),
          {| env := env s';
             trace := trace s' ++ map EvExists checked ++ [EvOpen p rb] |}).
Proof.
  rewrite ensure_refines, ensure_spec_cases, fetch_media_refines.
  unfold fetch_media_spec.
  destruct (first_existing (fs (env s)) (local_candidates self file_info))
    as [[[checked hit] data]|] eqn:Hlocal.
  - intros [= <- <-]. cbn [env]. rewrite Hlocal.
    exists checked, data. split; [|reflexivity].
    eapply first_existing_file, Hlocal.
  - unfold ensure_from_providers.
    destruct (first_answer file_info (ensure_plan self file_info) (env s))
      as [[[[r|]|err] made] e'] eqn:Hanswer; [|discriminate|discriminate].
    destruct (responder_failure r) as [err|]; [discriminate|].
    intros [= <- <-]. cbn [env].
    rewrite (first_existing_primary self file_info _ (responder_bytes r))
      by apply populate_file.
    exists [resolved_fname self file_info], (responder_bytes r).
    split; [apply populate_file | reflexivity].
Qed.

End LookupOutcome.

(** ** The further properties on the small deployment *)

Lemma accepting_provider_keeps_files label :
  store_keeps_files (accepting_provider label)
  /\ fetch_keeps_files (accepting_provider label).
Proof. split; intros q file_info e; reflexivity. Qed.

Lemma holding_provider_keeps_files label held payload :
  fetch_keeps_files (holding_provider label held payload).
Proof. intros q file_info e. reflexivity. Qed.

Lemma answering_keeps_files verdict : check_keeps_files (answering verdict).
Proof. intros wrapper file_info e. reflexivity. Qed.

Lemma store_file_on_one_provider :
  store_file one_provider 0 local_abc state_with_source
  = (Ok "/media/local_content/abc", stored_state).
Proof. vm_compute. reflexivity. Qed.

(** X2 on a source that has been read up to its second byte. *)
Lemma store_file_leaves_source_bytes_witness :
  "/media/local_content/abc"
  = os_path_join (local_media_directory one_provider)
      (_file_info_to_path (filepaths one_provider) local_abc)
  /\ files (fs (env stored_state)) !! "/media/local_content/abc"
     = Some three_bytes
  /\ (forall q, q <> "/media/local_content/abc" ->
        files (fs (env stored_state)) !! q
        = files (fs (env state_with_source)) !! q).
Proof.
  apply (store_file_leaves_source_bytes one_provider 0 local_abc
           state_with_source {| io_data := three_bytes; io_pos := 2 |}
           "/media/local_content/abc" stored_state).
  - reflexivity.
  - apply answering_keeps_files.
  - repeat constructor; apply accepting_provider_keeps_files.
  - apply store_file_on_one_provider.
Defined.

(** X3 on the same store. *)
Lemma store_file_then_lookup_witness :
  fetch_media one_provider local_abc stored_state
  = (Ok (Some (FileResponder {| io_data := three_bytes; io_pos := 0 |})),
     {| env := env stored_state;
        trace := trace stored_state
                   ++ [EvExists "/media/local_content/abc";
                       EvOpen "/media/local_content/abc" rb] |})
  /\ responder_bytes (FileResponder {| io_data := three_bytes; io_pos := 0 |})
     = three_bytes
  /\ ensure_media_is_in_local_cache one_provider local_abc stored_state
     = (Ok "/media/local_content/abc",
        {| env := env stored_state;
           trace := trace stored_state ++ [EvExists "/media/local_content/abc"] |}).
Proof.
  apply (store_file_then_lookup one_provider 0 local_abc
           state_with_source {| io_data := three_bytes; io_pos := 2 |}
           "/media/local_content/abc" stored_state).
  - reflexivity.
  - apply answering_keeps_files.
  - repeat constructor; apply accepting_provider_keeps_files.
  - apply store_file_on_one_provider.
Defined.

(** X4 on three providers of which the second fails. *)
Lemma store_into_file_stops_at_failing_provider_witness :
  exists s_end,
    store_into_file middle_provider_fails local_abc (writing_block three_bytes)
      empty_state
    = (Raise (ProviderError "unreachable"), s_end)
    /\ List.filter is_provider_call (drop (length (trace empty_state)) (trace s_end))
       = [EvStore "B1" "local_content/abc" local_abc;
          EvStore "B2" "local_content/abc" local_abc].
Proof.
  edestruct (store_into_file_stops_at_failing_provider middle_provider_fails
               local_abc (writing_block three_bytes) empty_state)
    with (done := [accepting_provider "B1"]) (failing := failing_provider "B2")
         (rest := [accepting_provider "B3"]) (err := ProviderError "unreachable")
    as (s_end & Hrun & Hcalls & _).
  - reflexivity.
  - reflexivity.
  - reflexivity.
  - eapply stored_next; [reflexivity | apply stored_none].
  - reflexivity.
  - exists s_end. split; [exact Hrun | exact Hcalls].
Defined.

(** X5 on a block that is interrupted. *)
Lemma store_into_file_block_failure_skips_check_witness :
  exists s_end,
    store_into_file one_provider local_abc (interrupted_block three_bytes)
      empty_state
    = (Raise (ValueError "connection lost"), s_end)
    /\ trace s_end
       = trace empty_state
           ++ [EvMakedirs (os_path_dirname (resolved_fname one_provider local_abc));
               EvOpen (resolved_fname one_provider local_abc) wb;
               EvYield (resolved_fname one_provider local_abc);
               EvClose (resolved_fname one_provider local_abc);
               EvRemove (resolved_fname one_provider local_abc)].
Proof.
  edestruct (store_into_file_block_failure_skips_check one_provider local_abc
               (interrupted_block three_bytes) empty_state)
    with (err := ValueError "connection lost")
    as (s_end & Hrun & Htrace & _).
  - reflexivity.
  - exists s_end. split; [exact Hrun | exact Htrace].
Defined.

(** X6 on a provider that holds a copy. *)
Lemma fetch_media_keeps_files_witness :
  fs (env (snd (fetch_media second_provider_holds local_abc empty_state)))
  = fs (env empty_state).
Proof.
  apply (fetch_media_keeps_files second_provider_holds local_abc empty_state).
  repeat constructor.
Defined.

Lemma ensure_on_broken_connection :
  ensure_media_is_in_local_cache connection_breaks local_abc empty_state
  = (Raise (ProviderError "connection lost"), interrupted_state).
Proof. vm_compute. reflexivity. Qed.

(** X7 on a descriptor that only the second provider holds, and on a
    transfer that breaks off. *)
Lemma ensure_changes_primary_path_only_witness :
  files (fs (env (snd (ensure_media_is_in_local_cache second_provider_holds
                         local_abc empty_state)))) !! "/media/local_content/xyz"
  = files (fs (env empty_state)) !! "/media/local_content/xyz"
  /\ (fs (env interrupted_state) = fs (env empty_state)
      \/ exists r,
           responder_failure r = Some (ProviderError "connection lost")
           /\ files (fs (env interrupted_state))
                !! resolved_fname connection_breaks local_abc
              = Some (responder_bytes r)
           /\ last (trace interrupted_state) = Some (EvRelease r)).
Proof.
  split.
  - assert (Hkeep : Forall fetch_keeps_files
                      (storage_providers second_provider_holds))
      by repeat constructor.
    apply (proj1 (ensure_changes_primary_path_only second_provider_holds
                    local_abc empty_state Hkeep)).
    discriminate.
  - assert (Hkeep : Forall fetch_keeps_files
                      (storage_providers connection_breaks))
      by repeat constructor.
    apply (proj2 (ensure_changes_primary_path_only connection_breaks
                    local_abc empty_state Hkeep)
             (ProviderError "connection lost") interrupted_state).
    apply ensure_on_broken_connection.
Defined.

Lemma ensure_on_second_provider :
  ensure_media_is_in_local_cache second_provider_holds local_abc empty_state
  = (Ok "/media/local_content/abc", populated_state).
Proof. vm_compute. reflexivity. Qed.

(** X8 after the cache has been populated from the second provider. *)
Lemma ensure_twice_asks_no_provider_witness :
  exists checked,
    ensure_media_is_in_local_cache second_provider_holds local_abc
      populated_state
    = (Ok "/media/local_content/abc",
       {| env := env populated_state;
          trace := trace populated_state ++ map EvExists checked |}).
Proof.
  apply (ensure_twice_asks_no_provider second_provider_holds local_abc
           empty_state "/media/local_content/abc" populated_state).
  apply ensure_on_second_provider.
Defined.

(** X9 after the same call. *)
Lemma ensure_then_fetch_serves_local_file_witness :
  exists checked data,
    files (fs (env populated_state)) !! "/media/local_content/abc" = Some data
    /\ fetch_media second_provider_holds local_abc populated_state
       = (Ok (Some (FileResponder {| io_data := data; io_pos := 0 |})),
          {| env := env populated_state;
             trace := trace populated_state ++ map EvExists checked
                        ++ [EvOpen "/media/local_content/abc" rb] |}).
Proof.
  apply (ensure_then_fetch_serves_local_file second_provider_holds local_abc
           empty_state "/media/local_content/abc" populated_state).
  apply ensure_on_second_provider.
Defined.

(** * Properties of the key configuration *)

Module KeyConfigFacts.

Import KeyConfig.

Section ReadPerspectivesFacts.

Variable VerifyKey : Type.
Variable is_signing_algorithm_supported : string -> bool.
Variable decode_base64 : Yaml -> outcome (list byte).
Variable decode_verify_key_bytes : string -> list byte -> outcome VerifyKey.
Variable read_yaml_file : string -> string -> outcome Yaml.

Local Abbreviation servers_map := (gmap string (gmap string VerifyKey)).
Local Abbreviation read_keys :=
  (read_verify_keys VerifyKey is_signing_algorithm_supported decode_base64
     decode_verify_key_bytes).
Local Abbreviation read_all :=
  (read_servers VerifyKey is_signing_algorithm_supported decode_base64
     decode_verify_key_bytes).
Local Abbreviation configured :=
  (configured_key VerifyKey is_signing_algorithm_supported decode_base64
     decode_verify_key_bytes).
Local Abbreviation listed_key :=
  (KeyConfig.listed_key VerifyKey is_signing_algorithm_supported decode_base64
     decode_verify_key_bytes).
Local Abbreviation no_empty_server := (KeyConfig.no_empty_server VerifyKey).

Lemma read_verify_keys_skips_unsupported server (keys : list (string * Yaml))
    (servers : servers_map) :
  read_keys server keys servers
  = read_keys server
      (List.filter (fun entry => is_signing_algorithm_supported (fst entry)) keys)
      servers.
Proof.
  revert servers. induction keys as [|[key_id key_data] rest IH]; intros servers.
  - reflexivity.
  - cbn [read_verify_keys List.filter fst].
    destruct (is_signing_algorithm_supported key_id) eqn:Hsupported.
    + cbn [read_verify_keys]. rewrite Hsupported.
      destruct (getitem key_data "key") as [key_base64|]; [|reflexivity].
      cbn [obind]. destruct (decode_base64 key_base64) as [key_bytes|];
        [|reflexivity].
      cbn [obind].
      destruct (decode_verify_key_bytes key_id key_bytes) as [verify_key|];
        [|reflexivity].
      cbn [obind]. apply IH.
    + apply IH.
Qed.

(** X10: [read_perspectives] never looks into an entry whose key id names
    an unsupported algorithm: removing such entries from a server's
    [verify_keys] changes neither the result nor the error, and a server
    that lists only such entries leaves the result as it was, however
    malformed the entries are. *)
Theorem read_perspectives_ignores_unsupported_keys server
    (keys : list (string * Yaml)) (servers : servers_map) :
  read_verify_keys VerifyKey is_signing_algorithm_supported decode_base64
    decode_verify_key_bytes server keys servers
  = read_verify_keys VerifyKey is_signing_algorithm_supported decode_base64
      decode_verify_key_bytes server
      (List.filter (fun entry => is_signing_algorithm_supported (fst entry)) keys)
      servers
  /\ (Forall (fun entry => is_signing_algorithm_supported (fst entry) = false) keys ->
      read_verify_keys VerifyKey is_signing_algorithm_supported decode_base64
        decode_verify_key_bytes server keys servers
      = Done servers).
Proof.
  split; [apply read_verify_keys_skips_unsupported|].
  intros Hnone. rewrite read_verify_keys_skips_unsupported.
  assert (Hfilter : List.filter
                      (fun entry => is_signing_algorithm_supported (fst entry))
                      keys = []).
  { induction Hnone as [|entry rest Hentry _ IH]; [reflexivity|].
    cbn [List.filter]. rewrite Hentry. exact IH. }
  rewrite Hfilter. reflexivity.
Qed.

Lemma verify_key_of_set (servers : servers_map) server key_id verify_key s k :
  verify_key_of VerifyKey (set_verify_key VerifyKey servers server key_id verify_key)
    s k
  = if decide (s = server /\ k = key_id) then Some verify_key
    else verify_key_of VerifyKey servers s k.
Proof.
  unfold verify_key_of, set_verify_key.
  destruct (decide (s = server)) as [->|Hs].
  - rewrite lookup_insert_eq.
    destruct (decide (k = key_id)) as [->|Hk].
    + rewrite lookup_insert_eq. rewrite decide_True by (split; reflexivity).
      reflexivity.
    + rewrite lookup_insert_ne by (intros Heq; apply Hk; symmetry; exact Heq).
      rewrite decide_False by (intros [_ Heq]; contradiction).
      destruct (servers !! server); [reflexivity | apply lookup_empty].
  - rewrite lookup_insert_ne by (intros Heq; apply Hs; symmetry; exact Heq).
    rewrite decide_False by (intros [Heq _]; contradiction).
    reflexivity.
Qed.

Lemma key_elem_of_fst {V : Type} (k : string) (v : V) (l : list (string * V)) :
  (k, v) ∈ l -> k ∈ map fst l.
Proof.
  intros Hin. induction l as [|[k' v'] rest IH].
  - inversion Hin.
  - apply elem_of_cons in Hin as [[= -> ->]|Hin].
    + apply list_elem_of_here.
    + apply list_elem_of_further, IH, Hin.
Qed.

Lemma read_verify_keys_result server (keys : list (string * Yaml))
    (servers servers' : servers_map) :
  NoDup (map fst keys) ->
  (forall k, k ∈ map fst keys -> verify_key_of VerifyKey servers server k = None) ->
  read_keys server keys servers = Done servers' ->
  (forall s k verify_key,
     verify_key_of VerifyKey servers' s k = Some verify_key <->
     verify_key_of VerifyKey servers s k = Some verify_key
     \/ (s = server /\ listed_key keys k verify_key))
  /\ (forall s, s <> server -> servers' !! s = servers !! s)
  /\ (no_empty_server servers -> no_empty_server servers').
Proof.
  revert servers.
  induction keys as [|[key_id key_data] rest IH]; intros servers Hnodup Hfresh Hrun.
  - injection Hrun as <-. split; [|split].
    + intros s k verify_key. split; [intros H; left; exact H|].
      intros [H|[_ (key_data & _ & _ & Hin & _)]]; [exact H | inversion Hin].
    + reflexivity.
    + intros H; exact H.
  - cbn [map fst] in Hnodup. apply NoDup_cons in Hnodup as [Hnotin Hnodup].
    cbn [read_verify_keys] in Hrun.
    destruct (is_signing_algorithm_supported key_id) eqn:Hsupported.
    + destruct (getitem key_data "key") as [key_base64|] eqn:Hkey;
        [|discriminate].
      cbn [obind] in Hrun.
      destruct (decode_base64 key_base64) as [key_bytes|] eqn:Hbytes;
        [|discriminate].
      cbn [obind] in Hrun.
      destruct (decode_verify_key_bytes key_id key_bytes) as [vk|] eqn:Hvk;
        [|discriminate].
      cbn [obind] in Hrun.
      apply IH in Hrun as (Hkeys & Hothers & Hnonempty); [|exact Hnodup|].
      2: { intros k Hk. rewrite verify_key_of_set.
           rewrite decide_False.
           - apply Hfresh. cbn [map fst]. apply list_elem_of_further, Hk.
           - intros [_ ->]. contradiction. }
      split; [|split].
      * intros s k verify_key. rewrite Hkeys, verify_key_of_set. split.
        -- intros [Hset|[-> (kd & k64 & kb & Hin & Hrest)]].
           ++ destruct (decide (s = server /\ k = key_id)) as [[-> ->]|Hne].
              ** injection Hset as <-. right. split; [reflexivity|].
                 exists key_data, key_base64, key_bytes.
                 split; [apply list_elem_of_here|].
                 repeat split; assumption.
              ** left. exact Hset.
           ++ right. split; [reflexivity|].
              exists kd, k64, kb. split; [apply list_elem_of_further, Hin|].
              exact Hrest.
        -- intros [Hold|[-> (kd & k64 & kb & Hin & Hsup & Hk & Hb & Hv)]].
           ++ left. rewrite decide_False; [exact Hold|].
              intros [-> ->].
              rewrite Hfresh in Hold by (cbn [map fst]; apply list_elem_of_here).
              discriminate.
           ++ apply elem_of_cons in Hin as [[= -> ->]|Hin].
              ** left. rewrite decide_True by (split; reflexivity).
                 rewrite Hkey in Hk. injection Hk as <-.
                 rewrite Hbytes in Hb. injection Hb as <-.
                 rewrite Hvk in Hv. injection Hv as <-. reflexivity.
              ** right. split; [reflexivity|].
                 exists kd, k64, kb. repeat split; assumption.
      * intros s Hs. rewrite (Hothers s Hs). unfold set_verify_key.
        apply lookup_insert_ne. intros Heq. apply Hs. symmetry. exact Heq.
      * intros Hservers. apply Hnonempty.
        intros s keys0 Hlook. unfold set_verify_key in Hlook.
        destruct (decide (s = server)) as [->|Hs].
        -- rewrite lookup_insert_eq in Hlook. injection Hlook as <-.
           exists key_id. rewrite lookup_insert_eq. eexists; reflexivity.
        -- rewrite lookup_insert_ne in Hlook
             by (intros Heq; apply Hs; symmetry; exact Heq).
           apply (Hservers s keys0 Hlook).
    + apply IH in Hrun as (Hkeys & Hothers & Hnonempty); [|exact Hnodup|].
      2: { intros k Hk. apply Hfresh. cbn [map fst].
           apply list_elem_of_further, Hk. }
      split; [|split; [exact Hothers | exact Hnonempty]].
      intros s k verify_key. rewrite Hkeys. split.
      * intros [H|[-> (kd & k64 & kb & Hin & Hrest)]]; [left; exact H|].
        right. split; [reflexivity|].
        exists kd, k64, kb. split; [apply list_elem_of_further, Hin | exact Hrest].
      * intros [H|[-> (kd & k64 & kb & Hin & Hsup & Hrest)]]; [left; exact H|].
        apply elem_of_cons in Hin as [[= -> ->]|Hin].
        -- rewrite Hsupported in Hsup. discriminate.
        -- right. split; [reflexivity|].
           exists kd, k64, kb.
           split; [exact Hin | split; [exact Hsup | exact Hrest]].
Qed.

Lemma configured_key_cons server server_config keys
    (rest : list (string * Yaml)) s k verify_key :
  getitem server_config "verify_keys" = Done (YDict keys) ->
  configured ((server, server_config) :: rest) s k verify_key <->
  (s = server /\ listed_key keys k verify_key) \/ configured rest s k verify_key.
Proof.
  intros Hkeys. unfold configured_key, KeyConfig.listed_key. split.
  - intros (sc & keys' & kd & k64 & kb & Hin & Hget & Hrest).
    apply elem_of_cons in Hin as [[= -> ->]|Hin].
    + left. split; [reflexivity|].
      rewrite Hkeys in Hget. injection Hget as <-.
      exists kd, k64, kb. exact Hrest.
    + right. exists sc, keys', kd, k64, kb.
      split; [exact Hin | split; [exact Hget | exact Hrest]].
  - intros [[-> (kd & k64 & kb & Hrest)]
           |(sc & keys' & kd & k64 & kb & Hin & Hrest)].
    + exists server_config, keys, kd, k64, kb.
      split; [apply list_elem_of_here | split; [exact Hkeys | exact Hrest]].
    + exists sc, keys', kd, k64, kb.
      split; [apply list_elem_of_further, Hin | exact Hrest].
Qed.

Lemma items_inv (o : Yaml) l : items o = Done l -> o = YDict l.
Proof. destruct o; cbn; intros [= <-]; reflexivity. Qed.

Lemma read_servers_result (config_servers : list (string * Yaml))
    (servers servers' : servers_map) :
  well_formed config_servers ->
  (forall s, s ∈ map fst config_servers -> servers !! s = None) ->
  read_all config_servers servers = Done servers' ->
  (forall s k verify_key,
     verify_key_of VerifyKey servers' s k = Some verify_key <->
     verify_key_of VerifyKey servers s k = Some verify_key
     \/ configured config_servers s k verify_key)
  /\ (no_empty_server servers -> no_empty_server servers').
Proof.
  revert servers.
  induction config_servers as [|[server server_config] rest IH];
    intros servers [Hnodup Hkeys_nodup] Hfresh Hrun.
  - injection Hrun as <-. split; [|intros H; exact H].
    intros s k verify_key. split; [intros H; left; exact H|].
    intros [H|(sc & keys & kd & k64 & kb & Hin & _)]; [exact H | inversion Hin].
  - cbn [map fst] in Hnodup. apply NoDup_cons in Hnodup as [Hnotin Hnodup].
    cbn [read_servers] in Hrun.
    destruct (getitem server_config "verify_keys") as [verify_keys|] eqn:Hget;
      [|discriminate].
    cbn [obind] in Hrun.
    destruct (items verify_keys) as [keys|] eqn:Hitems; [|discriminate].
    apply items_inv in Hitems as ->.
    cbn [obind] in Hrun.
    destruct (read_keys server keys servers) as [servers1|] eqn:Hinner;
      [|discriminate].
    cbn [obind] in Hrun.
    apply read_verify_keys_result in Hinner as (Hinner & Hothers & Hnonempty1).
    2: { apply (Hkeys_nodup server server_config keys);
           [apply list_elem_of_here | exact Hget]. }
    2: { intros k _. unfold verify_key_of.
         rewrite Hfresh by (cbn [map fst]; apply list_elem_of_here).
         reflexivity. }
    apply IH in Hrun as [Hrest Hnonempty2].
    + split.
      * intros s k verify_key.
        rewrite Hrest, Hinner, (configured_key_cons _ _ _ _ _ _ _ Hget).
        tauto.
      * intros H. apply Hnonempty2, Hnonempty1, H.
    + split; [exact Hnodup|].
      intros s sc ks Hin. apply (Hkeys_nodup s sc ks).
      apply list_elem_of_further, Hin.
    + intros s Hs. rewrite Hothers.
      * apply Hfresh. cbn [map fst]. apply list_elem_of_further, Hs.
      * intros ->. contradiction.
Qed.

(** X11: when [read_perspectives] returns, the result holds a verify key
    for a server under a key id exactly when the configuration lists that
    key id for that server, its algorithm is supported and its key decodes;
    a server appears in the result exactly when it has such a key, so a
    server with unsupported keys only is left out. *)
Theorem read_perspectives_result perspectives_config_path config
    (config_servers : list (string * Yaml)) (servers : servers_map) :
  read_yaml_file perspectives_config_path "perspectives_config_path"
  = Done config ->
  getitem config "servers" = Done (YDict config_servers) ->
  well_formed config_servers ->
  read_perspectives VerifyKey is_signing_algorithm_supported decode_base64
    decode_verify_key_bytes read_yaml_file perspectives_config_path
  = Done servers ->
  (forall s k verify_key,
     verify_key_of VerifyKey servers s k = Some verify_key <->
     configured_key VerifyKey is_signing_algorithm_supported decode_base64
       decode_verify_key_bytes config_servers s k verify_key)
  /\ (forall s,
        is_Some (servers !! s) <->
        exists k verify_key,
          configured_key VerifyKey is_signing_algorithm_supported decode_base64
            decode_verify_key_bytes config_servers s k verify_key).
Proof.
  intros Hread Hget Hwf Hrun.
  unfold read_perspectives in Hrun. rewrite Hread in Hrun. cbn [obind] in Hrun.
  rewrite Hget in Hrun. cbn [obind items] in Hrun.
  apply read_servers_result in Hrun as [Hkeys Hnonempty];
    [|exact Hwf | intros s _; apply lookup_empty].
  assert (Hresult : forall s k verify_key,
            verify_key_of VerifyKey servers s k = Some verify_key <->
            configured config_servers s k verify_key).
  { intros s k verify_key. rewrite Hkeys. split; [|intros H; right; exact H].
    intros [H|H]; [|exact H].
    unfold verify_key_of in H. rewrite lookup_empty in H. discriminate. }
  split; [exact Hresult|].
  intros s. split.
  - intros [keys Hlook].
    assert (Hempty : no_empty_server ∅).
    { intros s0 keys0 H. rewrite lookup_empty in H. discriminate. }
    destruct (Hnonempty Hempty s keys Hlook) as [k [verify_key Hk]].
    exists k, verify_key. apply Hresult.
    unfold verify_key_of. rewrite Hlook. exact Hk.
  - intros (k & verify_key & Hconf). apply Hresult in Hconf.
    unfold verify_key_of in Hconf.
    destruct (servers !! s) as [keys|]; [eexists; reflexivity | discriminate].
Qed.

End ReadPerspectivesFacts.

Section GenerateConfigFacts.

Variable SigningKey : Type.
Variable generate_signing_key : string -> SigningKey.
Variable write_signing_keys : list SigningKey -> string.
Variable decode_signing_key_base64 :
  string -> string -> string -> outcome SigningKey.
Variable NACL_ED25519 : string.
Variable isspace : ascii -> bool.
Variable abspath : string -> string.
Variable read_file : string -> string -> FS -> outcome string.
Variable super_generate_config : Args -> string -> FS -> outcome (Args * FS).

Local Abbreviation generate :=
  (generate_config SigningKey generate_signing_key write_signing_keys
     decode_signing_key_base64 NACL_ED25519 isspace abspath read_file
     super_generate_config).
Local Abbreviation key_step :=
  (signing_key_step SigningKey generate_signing_key write_signing_keys
     decode_signing_key_base64 NACL_ED25519 isspace read_file).

Lemma chosen_path_given (given : option string) fallback :
  truthy_str given = true -> given = Some (chosen_path given fallback).
Proof.
  unfold chosen_path. intros Hgiven. rewrite Hgiven.
  destruct given as [p|]; [reflexivity | discriminate].
Qed.

Lemma if_negb {A : Type} (b : bool) (x y : A) :
  (if negb b then x else y) = (if b then y else x).
Proof. destruct b; reflexivity. Qed.

Lemma generate_config_run args config_dir_path d args0 d0 :
  super_generate_config args config_dir_path d = Done (args0, d0) ->
  generate args config_dir_path d
  = let? d1 := key_step (signing_path args0 config_dir_path) d0 in
    Done ({| server_name := server_name args0;
             pid_file := abspath (pid_file args0);
             signing_key_path := Some (signing_path args0 config_dir_path);
             old_signing_key_path := Some (old_keys_path args0 config_dir_path);
             perspectives_config_path :=
               Some (perspectives_path args0 config_dir_path) |},
          create_perspectives_if_missing (perspectives_path args0 config_dir_path)
            (create_empty_if_missing (old_keys_path args0 config_dir_path) d1)).
Proof.
  intros Hsuper. unfold generate_config. rewrite Hsuper. cbn [obind fst snd].
  cbv zeta.
  unfold signing_path, old_keys_path, perspectives_path, base_key_name,
    chosen_path, signing_key_step, create_empty_if_missing,
    create_perspectives_if_missing.
  destruct args0 as [name pid skp okp pp].
  cbn [server_name pid_file signing_key_path old_signing_key_path
         perspectives_config_path set_pid_file].
  destruct (truthy_str skp) eqn:Hskp;
    [destruct skp as [p1|]; [|discriminate]|];
    (destruct (truthy_str okp) eqn:Hokp;
     [destruct okp as [p2|]; [|discriminate]|]);
    (destruct (truthy_str pp) eqn:Hpp;
     [destruct pp as [p3|]; [|discriminate]|]);
    repeat first
      [ rewrite Hskp | rewrite Hokp | rewrite Hpp
      | progress cbn [negb server_name pid_file signing_key_path
                        old_signing_key_path perspectives_config_path
                        set_pid_file set_signing_key_path
                        set_old_signing_key_path set_perspectives_config_path
                        path_of default from_option id] ];
    match goal with
    | |- obind ?m _ = _ => destruct m as [d1|err]
    end;
    cbn [obind];
    repeat first
      [ rewrite Hskp | rewrite Hokp | rewrite Hpp | rewrite if_negb
      | progress cbn [negb server_name pid_file signing_key_path
                        old_signing_key_path perspectives_config_path
                        set_pid_file set_signing_key_path
                        set_old_signing_key_path set_perspectives_config_path
                        path_of default from_option id] ];
    reflexivity.
Qed.

Lemma fs_exists_true (p : string) (d : FS) :
  fs_exists p d = true <-> is_Some (files d !! p).
Proof. unfold fs_exists. apply bool_decide_eq_true. Qed.

Lemma fs_exists_false (p : string) (d : FS) :
  fs_exists p d = false <-> files d !! p = None.
Proof.
  unfold fs_exists. rewrite bool_decide_eq_false.
  rewrite <- eq_None_not_Some. reflexivity.
Qed.

Lemma write_text_file p text (d : FS) :
  files (write_text p text d) !! p = Some (list_byte_of_string text).
Proof.
  unfold write_text, fs_write, fs_open_wb. cbn [files].
  rewrite !lookup_insert_eq. reflexivity.
Qed.

Lemma write_text_other p text (d : FS) q :
  q <> p -> files (write_text p text d) !! q = files d !! q.
Proof.
  intros Hq. unfold write_text, fs_write, fs_open_wb. cbn [files].
  rewrite !lookup_insert_ne by (intros Heq; apply Hq; symmetry; exact Heq).
  reflexivity.
Qed.

Lemma create_empty_keeps p (d : FS) q data :
  files d !! q = Some data ->
  files (create_empty_if_missing p d) !! q = Some data.
Proof.
  intros Hq. unfold create_empty_if_missing.
  destruct (fs_exists p d) eqn:Hp; [exact Hq|].
  apply fs_exists_false in Hp. unfold fs_open_wb. cbn [files].
  rewrite lookup_insert_ne; [exact Hq|].
  intros ->. rewrite Hp in Hq. discriminate.
Qed.

Lemma create_perspectives_keeps p (d : FS) q data :
  files d !! q = Some data ->
  files (create_perspectives_if_missing p d) !! q = Some data.
Proof.
  intros Hq. unfold create_perspectives_if_missing.
  destruct (fs_exists p d) eqn:Hp; [exact Hq|].
  apply fs_exists_false in Hp.
  rewrite write_text_other; [exact Hq|].
  intros ->. rewrite Hp in Hq. discriminate.
Qed.

Lemma create_empty_exists p (d : FS) :
  is_Some (files (create_empty_if_missing p d) !! p).
Proof.
  unfold create_empty_if_missing.
  destruct (fs_exists p d) eqn:Hp; [apply fs_exists_true, Hp|].
  unfold fs_open_wb. cbn [files]. rewrite lookup_insert_eq. eexists; reflexivity.
Qed.

Lemma create_perspectives_exists p (d : FS) :
  is_Some (files (create_perspectives_if_missing p d) !! p).
Proof.
  unfold create_perspectives_if_missing.
  destruct (fs_exists p d) eqn:Hp; [apply fs_exists_true, Hp|].
  rewrite write_text_file. eexists; reflexivity.
Qed.

Lemma key_step_other p (d d1 : FS) q :
  key_step p d = Done d1 -> q <> p -> files d1 !! q = files d !! q.
Proof.
  unfold signing_key_step. intros Hstep Hq.
  destruct (fs_exists p d); cbn [negb] in Hstep.
  - destruct (read_file p "signing_key" d) as [text|]; [|discriminate].
    cbn [obind] in Hstep.
    destruct (Nat.eqb (length (split isspace (first_line text))) 1).
    + destruct (decode_signing_key_base64 NACL_ED25519 "auto" (first_line text))
        as [key|]; [|discriminate].
      injection Hstep as <-. apply write_text_other, Hq.
    + injection Hstep as <-. reflexivity.
  - injection Hstep as <-. apply write_text_other, Hq.
Qed.

Lemma key_step_exists p (d d1 : FS) :
  key_step p d = Done d1 -> is_Some (files d1 !! p).
Proof.
  unfold signing_key_step. intros Hstep.
  destruct (fs_exists p d) eqn:Hp; cbn [negb] in Hstep.
  - destruct (read_file p "signing_key" d) as [text|]; [|discriminate].
    cbn [obind] in Hstep.
    destruct (Nat.eqb (length (split isspace (first_line text))) 1).
    + destruct (decode_signing_key_base64 NACL_ED25519 "auto" (first_line text))
        as [key|]; [|discriminate].
      injection Hstep as <-. rewrite write_text_file. eexists; reflexivity.
    + injection Hstep as <-. apply fs_exists_true, Hp.
  - injection Hstep as <-. rewrite write_text_file. eexists; reflexivity.
Qed.

Lemma generate_config_inv args config_dir_path d args0 d0 args' d' :
  super_generate_config args config_dir_path d = Done (args0, d0) ->
  generate args config_dir_path d = Done (args', d') ->
  exists d1,
    key_step (signing_path args0 config_dir_path) d0 = Done d1
    /\ args' = {| server_name := server_name args0;
                  pid_file := abspath (pid_file args0);
                  signing_key_path := Some (signing_path args0 config_dir_path);
                  old_signing_key_path :=
                    Some (old_keys_path args0 config_dir_path);
                  perspectives_config_path :=
                    Some (perspectives_path args0 config_dir_path) |}
    /\ d' = create_perspectives_if_missing
              (perspectives_path args0 config_dir_path)
              (create_empty_if_missing (old_keys_path args0 config_dir_path) d1).
Proof.
  intros Hsuper Hrun. rewrite (generate_config_run _ _ _ _ _ Hsuper) in Hrun.
  destruct (key_step (signing_path args0 config_dir_path) d0) as [d1|];
    [|discriminate].
  cbn [obind] in Hrun. injection Hrun as <- <-.
  exists d1. repeat split.
Qed.

(** X12: when [generate_config] returns, the three path arguments are
    set, each to the path that was given or else to the default derived
    from the configuration directory and the server name; the pid file is
    made absolute; and a file exists at each of the three paths. *)
Theorem generate_config_sets_paths args config_dir_path d args0 d0 args' d' :
  super_generate_config args config_dir_path d = Done (args0, d0) ->
  generate_config SigningKey generate_signing_key write_signing_keys
    decode_signing_key_base64 NACL_ED25519 isspace abspath read_file
    super_generate_config args config_dir_path d = Done (args', d') ->
  let base := os_path_join config_dir_path (server_name args0) in
  let chosen given suffix :=
    if truthy_str given then path_of given else base +:+ suffix in
  server_name args' = server_name args0
  /\ pid_file args' = abspath (pid_file args0)
  /\ signing_key_path args'
     = Some (chosen (signing_key_path args0) ".signing.key")
  /\ old_signing_key_path args'
     = Some (chosen (old_signing_key_path args0) ".old.signing.keys")
  /\ perspectives_config_path args'
     = Some (chosen (perspectives_config_path args0) ".perspectives")
  /\ fs_exists (path_of (signing_key_path args')) d' = true
  /\ fs_exists (path_of (old_signing_key_path args')) d' = true
  /\ fs_exists (path_of (perspectives_config_path args')) d' = true.
Proof.
  intros Hsuper Hrun base chosen.
  destruct (generate_config_inv _ _ _ _ _ _ _ Hsuper Hrun)
    as (d1 & Hstep & -> & ->).
  cbn [server_name pid_file signing_key_path old_signing_key_path
         perspectives_config_path path_of default from_option id].
  repeat split.
  - apply fs_exists_true.
    destruct (key_step_exists _ _ _ Hstep) as [data Hdata].
    exists data. apply create_perspectives_keeps, create_empty_keeps, Hdata.
  - apply fs_exists_true.
    destruct (create_empty_exists (old_keys_path args0 config_dir_path) d1)
      as [data Hdata].
    exists data. apply create_perspectives_keeps, Hdata.
  - apply fs_exists_true, create_perspectives_exists.
Qed.

(** X13: [generate_config] does not overwrite what is there: a file that
    exists once the superclasses have run still holds the same bytes
    afterwards, unless it is the signing key file; and the signing key file
    is left alone too unless [split()] takes its first line for a single
    word (the old format).  This holds whatever characters the
    interpreter's [split()] treats as whitespace. *)
Theorem generate_config_keeps_existing_files args config_dir_path d args0 d0
    args' d' :
  super_generate_config args config_dir_path d = Done (args0, d0) ->
  generate_config SigningKey generate_signing_key write_signing_keys
    decode_signing_key_base64 NACL_ED25519 isspace abspath read_file
    super_generate_config args config_dir_path d = Done (args', d') ->
  (forall q data,
     files d0 !! q = Some data ->
     q <> signing_path args0 config_dir_path ->
     files d' !! q = Some data)
  /\ (forall data text,
        files d0 !! signing_path args0 config_dir_path = Some data ->
        read_file (signing_path args0 config_dir_path) "signing_key" d0
        = Done text ->
        length (split isspace (first_line text)) <> 1 ->
        files d' !! signing_path args0 config_dir_path = Some data).
Proof.
  intros Hsuper Hrun.
  destruct (generate_config_inv _ _ _ _ _ _ _ Hsuper Hrun)
    as (d1 & Hstep & _ & ->).
  split.
  - intros q data Hq Hne.
    apply create_perspectives_keeps, create_empty_keeps.
    rewrite (key_step_other _ _ _ _ Hstep Hne). exact Hq.
  - intros data text Hfile Hread Hformat.
    apply create_perspectives_keeps, create_empty_keeps.
    unfold signing_key_step in Hstep.
    assert (Hexists : fs_exists (signing_path args0 config_dir_path) d0 = true)
      by (apply fs_exists_true; eexists; exact Hfile).
    rewrite Hexists, Hread in Hstep. cbn [negb obind] in Hstep.
    apply Nat.eqb_neq in Hformat. rewrite Hformat in Hstep.
    injection Hstep as <-. exact Hfile.
Qed.

(** X14: on a directory that holds none of the three files, with three
    different paths, [generate_config] succeeds and writes a freshly
    generated signing key, an empty file of old signing keys and the
    default perspectives file. *)
Theorem generate_config_fresh_directory args config_dir_path d args0 d0 :
  super_generate_config args config_dir_path d = Done (args0, d0) ->
  let skp := signing_path args0 config_dir_path in
  let okp := old_keys_path args0 config_dir_path in
  let pp := perspectives_path args0 config_dir_path in
  files d0 !! skp = None ->
  files d0 !! okp = None ->
  files d0 !! pp = None ->
  skp <> okp -> skp <> pp -> okp <> pp ->
  exists args' d',
    generate_config SigningKey generate_signing_key write_signing_keys
      decode_signing_key_base64 NACL_ED25519 isspace abspath read_file
      super_generate_config args config_dir_path d = Done (args', d')
    /\ files d' !! skp
       = Some (list_byte_of_string
                 (write_signing_keys [generate_signing_key "auto"]))
    /\ files d' !! okp = Some []
    /\ files d' !! pp = Some (list_byte_of_string default_perspectives).
Proof.
  intros Hsuper skp okp pp Hskp Hokp Hpp Hso Hsp Hop.
  rewrite (generate_config_run _ _ _ _ _ Hsuper). fold skp okp pp.
  unfold signing_key_step.
  rewrite (proj2 (fs_exists_false skp d0) Hskp). cbn [negb obind].
  set (d1 := write_text skp (write_signing_keys [generate_signing_key "auto"]) d0).
  assert (Hokp1 : files d1 !! okp = None).
  { subst d1. rewrite write_text_other by (intros Heq; apply Hso; symmetry; exact Heq).
    exact Hokp. }
  unfold create_empty_if_missing.
  rewrite (proj2 (fs_exists_false okp d1) Hokp1).
  set (d2 := fs_open_wb okp d1).
  assert (Hpp2 : files d2 !! pp = None).
  { subst d2 d1. unfold fs_open_wb. cbn [files].
    rewrite lookup_insert_ne by exact Hop.
    rewrite write_text_other by (intros Heq; apply Hsp; symmetry; exact Heq).
    exact Hpp. }
  unfold create_perspectives_if_missing.
  rewrite (proj2 (fs_exists_false pp d2) Hpp2).
  eexists _, _. split; [reflexivity|]. split; [|split].
  - rewrite write_text_other by exact Hsp.
    subst d2. unfold fs_open_wb. cbn [files].
    rewrite lookup_insert_ne by (intros Heq; apply Hso; symmetry; exact Heq).
    subst d1. apply write_text_file.
  - rewrite write_text_other by exact Hop.
    subst d2. unfold fs_open_wb. cbn [files]. apply lookup_insert_eq.
  - apply write_text_file.
Qed.

(** X15: a signing key file whose first line [split()] takes for a
    single word is taken to be in the old format: the line is decoded as
    an ed25519 key of version "auto" and the file is rewritten with that
    key; when the line does not decode, [generate_config] fails with the
    decoder's error.  This holds whatever characters the interpreter's
    [split()] treats as whitespace. *)
Theorem generate_config_upgrades_old_format args config_dir_path d args0 d0
    data text :
  super_generate_config args config_dir_path d = Done (args0, d0) ->
  let skp := signing_path args0 config_dir_path in
  files d0 !! skp = Some data ->
  read_file skp "signing_key" d0 = Done text ->
  length (split isspace (first_line text)) = 1 ->
  match decode_signing_key_base64 NACL_ED25519 "auto" (first_line text) with
  | Done key =>
      exists args' d',
        generate_config SigningKey generate_signing_key write_signing_keys
          decode_signing_key_base64 NACL_ED25519 isspace abspath read_file
          super_generate_config args config_dir_path d = Done (args', d')
        /\ files d' !! skp
           = Some (list_byte_of_string (write_signing_keys [key]))
  | Fail err =>
      generate_config SigningKey generate_signing_key write_signing_keys
        decode_signing_key_base64 NACL_ED25519 isspace abspath read_file
        super_generate_config args config_dir_path d = Fail err
  end.
Proof.
  intros Hsuper skp Hfile Hread Hformat.
  rewrite (generate_config_run _ _ _ _ _ Hsuper). fold skp.
  unfold signing_key_step.
  assert (Hexists : fs_exists skp d0 = true)
    by (apply fs_exists_true; eexists; exact Hfile).
  rewrite Hexists, Hread. cbn [negb obind].
  apply Nat.eqb_eq in Hformat. rewrite Hformat.
  destruct (decode_signing_key_base64 NACL_ED25519 "auto" (first_line text))
    as [key|err]; cbn [obind]; [|reflexivity].
  eexists _, _. split; [reflexivity|].
  apply create_perspectives_keeps, create_empty_keeps, write_text_file.
Qed.

End GenerateConfigFacts.

End KeyConfigFacts.

(** ** The key configuration on a small example *)

Module KeyConfigExamples.

Import KeyConfig KeyConfigDemo.

Example split_words :
  split bytes_isspace "  ed25519 auto   c2VjcmV0 " = ["ed25519"; "auto"; "c2VjcmV0"]
  /\ split bytes_isspace "" = []
  /\ split bytes_isspace "c2VjcmV0" = ["c2VjcmV0"]
  /\ split str_isspace "  ed25519 auto   c2VjcmV0 "
     = ["ed25519"; "auto"; "c2VjcmV0"].
Proof. repeat split. Qed.

(** The two kinds of string differ on the separator 28: one word in a byte
    string, two in a text string. *)
Example split_at_file_separator :
  length (split bytes_isspace ("a" +:+ String (ascii_of_nat 28) "b")) = 1
  /\ length (split str_isspace ("a" +:+ String (ascii_of_nat 28) "b")) = 2.
Proof. split; reflexivity. Qed.

Example first_line_of_text :
  first_line (line "ed25519 auto c2VjcmV0" +:+ line "second") = "ed25519 auto c2VjcmV0"
  /\ first_line "" = "".
Proof. split; reflexivity. Qed.

Example default_perspectives_lines :
  length (List.filter (Ascii.eqb newline) (list_ascii_of_string default_perspectives))
  = 5.
Proof. reflexivity. Qed.

Example trusted_servers_of_example :
  trusted_servers
  = {[ "matrix.org"
         := {[ "ed25519:auto"
                 := ("ed25519:auto", list_byte_of_string "Noi6WqcDj0Qm") ]} ]}.
Proof. vm_compute. reflexivity. Qed.

Lemma perspectives_servers_well_formed : well_formed perspectives_servers.
Proof.
  split.
  - cbn. compute_done.
  - intros server server_config keys Hin Hget.
    unfold perspectives_servers in Hin.
    apply elem_of_cons in Hin as [Heq|Hin].
    { injection Heq as -> ->. cbn in Hget. injection Hget as <-.
      cbn. compute_done. }
    apply elem_of_cons in Hin as [Heq|Hin].
    { injection Heq as -> ->. cbn in Hget. injection Hget as <-.
      cbn. compute_done. }
    inversion Hin.
Qed.

Lemma read_perspectives_of_example :
  read_perspectives _ supported decode_text verify_key load_yaml
    "/etc/synapse/example.org.perspectives"
  = Done trusted_servers.
Proof. vm_compute. reflexivity. Qed.

(** X11 on the example: the server with unsupported keys only is not in
    the result. *)
Lemma read_perspectives_result_witness :
  is_Some (trusted_servers !! "legacy.example") <->
  exists k verify_key,
    configured_key _ supported decode_text KeyConfigDemo.verify_key
      perspectives_servers
      "legacy.example" k verify_key.
Proof.
  apply (proj2 (KeyConfigFacts.read_perspectives_result _ supported decode_text
                  verify_key load_yaml "/etc/synapse/example.org.perspectives"
                  (YDict [("servers", YDict perspectives_servers)])
                  perspectives_servers trusted_servers
                  eq_refl eq_refl perspectives_servers_well_formed
                  read_perspectives_of_example)).
Defined.

Lemma generate_config_on_empty_disk :
  demo_generate_config no_paths "/etc/synapse" empty_disk
  = Done (fst (generated_on empty_disk), snd (generated_on empty_disk)).
Proof. vm_compute. reflexivity. Qed.

Lemma generate_config_on_used_disk :
  demo_generate_config no_paths "/etc/synapse" used_disk
  = Done (fst (generated_on used_disk), snd (generated_on used_disk)).
Proof. vm_compute. reflexivity. Qed.

(** X12 on an empty configuration directory, with no path given. *)
Lemma generate_config_sets_paths_witness :
  server_name (fst (generated_on empty_disk)) = "example.org"
  /\ pid_file (fst (generated_on empty_disk)) = "/cwd/homeserver.pid"
  /\ signing_key_path (fst (generated_on empty_disk))
     = Some "/etc/synapse/example.org.signing.key"
  /\ old_signing_key_path (fst (generated_on empty_disk))
     = Some "/etc/synapse/example.org.old.signing.keys"
  /\ perspectives_config_path (fst (generated_on empty_disk))
     = Some "/etc/synapse/example.org.perspectives"
  /\ fs_exists (path_of (signing_key_path (fst (generated_on empty_disk))))
       (snd (generated_on empty_disk)) = true
  /\ fs_exists (path_of (old_signing_key_path (fst (generated_on empty_disk))))
       (snd (generated_on empty_disk)) = true
  /\ fs_exists
       (path_of (perspectives_config_path (fst (generated_on empty_disk))))
       (snd (generated_on empty_disk)) = true.
Proof.
  exact (KeyConfigFacts.generate_config_sets_paths string generated_key
           key_lines decode_word "ed25519" bytes_isspace from_cwd read_text no_superclass
           no_paths "/etc/synapse" empty_disk no_paths empty_disk
           (fst (generated_on empty_disk)) (snd (generated_on empty_disk))
           eq_refl generate_config_on_empty_disk).
Defined.

(** X13 on a directory with a perspectives file of the administrator's
    own: the file is kept. *)
Lemma generate_config_keeps_existing_files_witness :
  files (snd (generated_on used_disk)) !! "/etc/synapse/example.org.perspectives"
  = Some (list_byte_of_string "servers: {}").
Proof.
  apply (proj1 (KeyConfigFacts.generate_config_keeps_existing_files string
                  generated_key key_lines decode_word "ed25519" bytes_isspace from_cwd
                  read_text no_superclass
                  no_paths "/etc/synapse" used_disk no_paths used_disk
                  (fst (generated_on used_disk)) (snd (generated_on used_disk))
                  eq_refl generate_config_on_used_disk)).
  - reflexivity.
  - intros Heq. vm_compute in Heq. discriminate Heq.
Defined.

(** X14 on an empty configuration directory. *)
Lemma generate_config_fresh_directory_witness :
  exists args' d',
    demo_generate_config no_paths "/etc/synapse" empty_disk = Done (args', d')
    /\ files d' !! "/etc/synapse/example.org.signing.key"
       = Some (list_byte_of_string (key_lines [generated_key "auto"]))
    /\ files d' !! "/etc/synapse/example.org.old.signing.keys" = Some []
    /\ files d' !! "/etc/synapse/example.org.perspectives"
       = Some (list_byte_of_string default_perspectives).
Proof.
  apply (KeyConfigFacts.generate_config_fresh_directory string generated_key
           key_lines decode_word "ed25519" bytes_isspace from_cwd read_text no_superclass
           no_paths "/etc/synapse" empty_disk no_paths empty_disk eq_refl).
  - reflexivity.
  - reflexivity.
  - reflexivity.
  - intros Heq. vm_compute in Heq. discriminate Heq.
  - intros Heq. vm_compute in Heq. discriminate Heq.
  - intros Heq. vm_compute in Heq. discriminate Heq.
Defined.

(** X15 on a signing key file in the old format. *)
Lemma generate_config_upgrades_old_format_witness :
  exists args' d',
    demo_generate_config no_paths "/etc/synapse" used_disk = Done (args', d')
    /\ files d' !! "/etc/synapse/example.org.signing.key"
       = Some (list_byte_of_string (key_lines ["c2VjcmV0"])).
Proof.
  apply (KeyConfigFacts.generate_config_upgrades_old_format string
           generated_key key_lines decode_word "ed25519" bytes_isspace from_cwd read_text
           no_superclass no_paths "/etc/synapse" used_disk no_paths used_disk
           (list_byte_of_string "c2VjcmV0") "c2VjcmV0" eq_refl).
  - reflexivity.
  - reflexivity.
  - reflexivity.
Defined.

End KeyConfigExamples.
